(** * emissionsapi-worldmap-creator: the aggregation core and its callers

    A shallow embedding of [emissionsapi_worldmap_creator/__init__.py].

    Conventions of the embedding.

    - Measurement values are IEEE doubles, here as in the program: the
      kernel's binary64 [float], with the mean that pandas computes for a
      group (a compensated sum in row order that skips NaN, over the
      number of values added).
    - Coordinates are IEEE doubles in the program too.  The program only
      compares them and takes one difference per side of a bounding box;
      they are idealised here as exact rationals ([Qc], canonical
      fractions, so that equal numbers are equal terms).  A null produced
      by [DataFrame.mask] is modelled by [None].
    - A frame may lack its column "value": that is the frame geopandas
      reads from a collection without features.
    - Calls into h3, and file and network reads, may raise.  They are
      modelled as functions into [result]; an exception is identified by
      the name of its class.
    - The caller's data frame is a mutable object.  [prepare] therefore
      returns, next to its outcome, the state in which it leaves the frame
      it was given.
    - The file system and the calls made by [get_points] are threaded
      through a small state-and-exception monad over [world].
    - [plot] draws with matplotlib and writes the image; it is not
      modelled.  [main] is modelled up to its call of [plot], and what is
      said of its files and calls holds up to that call. *)

From Stdlib Require Import ZArith QArith Qcanon Ascii String OrderedTypeEx.
From Stdlib Require Uint63.
From Stdlib Require Import PrimFloat.
From stdpp Require Import gmap strings list fin_maps sorting.

(** ** Outcomes of Python calls *)

Definition exn := string.

Inductive result (A : Type) : Type :=
  | Returned (a : A)
  | Raised (e : exn).
Arguments Returned {A} a.
Arguments Raised {A} e.

Definition rbind {A B} (r : result A) (k : A -> result B) : result B :=
  match r with
  | Returned a => k a
  | Raised e => Raised e
  end.

(** A list comprehension [[f(x) for x in l]]: left to right, the first
    exception ends it. *)
Fixpoint comprehension {A B} (f : A -> result B) (l : list A) : result (list B) :=
  match l with
  | [] => Returned []
  | x :: l' =>
      rbind (f x) (fun y => rbind (comprehension f l') (fun ys => Returned (y :: ys)))
  end.

(** ** Numbers *)

(** Coordinates. *)
Abbreviation num := Qc.

(** The mean of the values of a group as pandas computes it
    ([group_mean]): over the values in row order it keeps a sum with
    Kahan's compensation and the number of values added, a NaN being
    skipped; the mean is the sum over that number, and NaN when no value
    was added. *)
Record running := Running {
  sumx : float;
  compensation : float;
  nobs : nat
}.

Definition no_values : running := Running 0 0 0.

Definition add_value (r : running) (val : float) : running :=
  if is_nan val then r
  else
    let y := (val - compensation r)%float in
    let t := (sumx r + y)%float in
    let c := (t - sumx r - y)%float in
    Running t (if is_nan c then 0%float else c) (S (nobs r)).

Definition float_of_nat (n : nat) : float :=
  of_uint63 (Uint63.of_Z (Z.of_nat n)).

Definition mean_of (r : running) : float :=
  match nobs r with
  | O => nan
  | S _ => (sumx r / float_of_nat (nobs r))%float
  end.

(** The arithmetic mean of a list of values, in doubles. *)
Definition arithmetic_mean (l : list float) : float :=
  mean_of (fold_left add_value l no_values).

(** ** Data *)

(** H3 resolution of the Emissions API points *)
Definition RESOLUTION : nat := 4.

(** A feature of the downloaded collection: a point geometry ([x] is the
    longitude, [y] the latitude) and its [value] property. *)
Record feature := Feature {
  geometry_x : num;
  geometry_y : num;
  value : float
}.

(** The data frame handed to [prepare]: its rows, whether it has the
    column "value" (the frame read from a collection without features has
    only its geometry; the values of a frame without the column are not
    read), and its column "hex" when it has one. *)
Record frame := Frame {
  features : list feature;
  has_value : bool;
  hex : option (list string)
}.

(** A shapely polygon, by the (x, y) coordinates of its shell. *)
Record Polygon := MkPolygon { exterior : list (num * num) }.

(** [Polygon(shell)]: shapely refuses a shell of one or two points. *)
Definition new_Polygon (shell : list (num * num)) : result Polygon :=
  match shell with
  | [_] | [_; _] => Raised "ValueError"
  | _ => Returned (MkPolygon shell)
  end.

(** A row of the prepared data frame, columns "hex", "value" and "geometry";
    every entry may be null. *)
Record row := Row {
  row_hex : option string;
  row_value : option float;
  row_geometry : option Polygon
}.

Definition null_row : row := Row None None None.

(** ** revert *)

Definition revert (polygon : list (num * num)) : list (num * num) :=
  fmap (fun '(lat, lon) => (lon, lat)) polygon.

(** ** groupby("hex", as_index=False).agg({"value": "mean"})

    One pass over the rows keeps, for every key met so far, the running
    sum of its values, in a table ordered by key (pandas sorts the group
    keys); the means are taken at the end. *)

Definition table := list (string * running).

Fixpoint accumulate (k : string) (v : float) (t : table) : table :=
  match t with
  | [] => [(k, add_value no_values v)]
  | (k', r) :: t' =>
      match String.compare k k' with
      | Eq => (k', add_value r v) :: t'
      | Lt => (k, add_value no_values v) :: t
      | Gt => (k', r) :: accumulate k v t'
      end
  end.

Definition group_sums (keyed : list (string * float)) : table :=
  fold_left (fun t kv => accumulate (fst kv) (snd kv) t) keyed [].

Definition groupby_mean (keyed : list (string * float)) : list (string * float) :=
  fmap (fun e => (fst e, mean_of (snd e))) (group_sums keyed).

(** ** bounds and mask *)

Definition num_min (a b : num) : num := if decide (a <= b)%Qc then a else b.
Definition num_max (a b : num) : num := if decide (a <= b)%Qc then b else a.

Record box := Box { minx : num; miny : num; maxx : num; maxy : num }.

(** [Polygon.bounds]: the box around the shell; an empty polygon has none
    (its bounds are NaN). *)
Definition widen (b : box) (xy : num * num) : box :=
  Box (num_min (minx b) (fst xy)) (num_min (miny b) (snd xy))
      (num_max (maxx b) (fst xy)) (num_max (maxy b) (snd xy)).

Definition bounds (p : Polygon) : option box :=
  match exterior p with
  | [] => None
  | (x, y) :: rest => Some (fold_left widen rest (Box x y x y))
  end.

(** A comparison with NaN is false. *)
Definition exceeds (limit : num) (span : option num) : bool :=
  match span with
  | Some d => bool_decide (limit < d)%Qc
  | None => false
  end.

Definition span_y (b : option box) : option num :=
  option_map (fun b => (maxy b - miny b)%Qc) b.
Definition span_x (b : option box) : option num :=
  option_map (fun b => (maxx b - minx b)%Qc) b.

(** [df.mask(cond)] with a boolean series: a row whose condition holds has
    every column replaced by null; the row itself stays. *)
Fixpoint mask (df : list row) (cond : list bool) : list row :=
  match df, cond with
  | r :: df', c :: cond' => (if c then null_row else r) :: mask df' cond'
  | _, _ => []
  end.

(** ** prepare, over the grid indexer *)

(** "Merging overlapping points": the frame with its new column "hex",
    grouped by it, the values averaged. *)
Definition merge_points (hexes : list string) (pts : list feature)
  : list (string * float) :=
  groupby_mean (zip hexes (fmap value pts)).

(** "Calculating hexagonal polygons": the frame gets its column "geometry". *)
Definition with_geometry (merged : list (string * float))
    (shapes : list Polygon) : list row :=
  zip_with (fun km g => Row (Some (fst km)) (Some (snd km)) (Some g))
           merged shapes.

(** "Removing polygons crossing the map border": both masks are computed
    from the bounds of the unmasked frame. *)
Definition remove_crossing (df : list row) (bnds : list (option box)) : list row :=
  let df := mask df (fmap (fun b => exceeds (Qc_of_Z 180) (span_y b)) bnds) in
  let df := mask df (fmap (fun b => exceeds (Qc_of_Z 180) (span_x b)) bnds) in
  df.

Section Grid.

(** [h3.geo_to_h3(lat, lng, resolution)] and [h3.h3_to_geo_boundary(h)],
    the latter giving (lat, lng) pairs. *)
Variable geo_to_h3 : num -> num -> nat -> result string.
Variable h3_to_geo_boundary : string -> result (list (num * num)).

Definition cell_of (p : feature) : result string :=
  geo_to_h3 (geometry_y p) (geometry_x p) RESOLUTION.

Definition prepare (df : frame) : result (list row) * frame :=
  match comprehension cell_of (features df) with
  | Raised e => (Raised e, df)
  | Returned hexes =>
      (* df["hex"] = [...] assigns into the frame that was passed in *)
      let df_in := Frame (features df) (has_value df) (Some hexes) in
      (* agg({"value": "mean"}) on a frame without the column *)
      if negb (has_value df) then (Raised "KeyError", df_in) else
      let merged := merge_points hexes (features df) in
      match comprehension h3_to_geo_boundary (fmap fst merged) with
      | Raised e => (Raised e, df_in)
      | Returned polygons =>
          match comprehension (fun polygon => new_Polygon (revert polygon))
                              polygons with
          | Raised e => (Raised e, df_in)
          | Returned shapes =>
              let df := with_geometry merged shapes in
              let bnds :=
                fmap (fun r => from_option bounds None (row_geometry r)) df in
              (Returned (remove_crossing df bnds), df_in)
          end
      end
  end.

End Grid.

(** ** Days: datetime.date and datetime.datetime

    [__main__] passes a [datetime.date]; the docstrings of this module say
    [datetime.datetime].  Both have [isoformat] and accept a [timedelta].
    The fields of a Python date are always within their ranges. *)

Inductive pyday :=
  | Date (year month day : Z)
  | DateTime (year month day hour minute second microsecond : Z).

Definition is_leap (y : Z) : bool :=
  (y mod 4 =? 0)%Z && (negb (y mod 100 =? 0)%Z || (y mod 400 =? 0)%Z).

Definition days_in_month (y m : Z) : Z :=
  match m with
  | 2 => if is_leap y then 29 else 28
  | 4 | 6 | 9 | 11 => 30
  | _ => 31
  end%Z.

Definition valid_date (y m d : Z) : Prop :=
  (1 <= y <= 9999 /\ 1 <= m <= 12 /\ 1 <= d <= days_in_month y m)%Z.

Definition valid_day (t : pyday) : Prop :=
  match t with
  | Date y m d => valid_date y m d
  | DateTime y m d hh mm ss us =>
      valid_date y m d /\
      (0 <= hh < 24 /\ 0 <= mm < 60 /\ 0 <= ss < 60 /\ 0 <= us < 1000000)%Z
  end.

(** [timedelta(days=1) + date]: the next calendar day, or OverflowError
    past the last day of year 9999. *)
Definition next_date (y m d : Z) : result (Z * Z * Z) :=
  if (d <? days_in_month y m)%Z then Returned (y, m, d + 1)%Z
  else if (m <? 12)%Z then Returned (y, m + 1, 1)%Z
  else if (y <? 9999)%Z then Returned (y + 1, 1, 1)%Z
  else Raised "OverflowError".

Definition add_one_day (t : pyday) : result pyday :=
  match t with
  | Date y m d =>
      rbind (next_date y m d) (fun '(y', m', d') => Returned (Date y' m' d'))
  | DateTime y m d hh mm ss us =>
      rbind (next_date y m d)
            (fun '(y', m', d') => Returned (DateTime y' m' d' hh mm ss us))
  end.

(** [date.toordinal]: the number of the day, 0001-01-01 being day 1. *)
Definition days_before_year (y : Z) : Z :=
  let p := (y - 1)%Z in (p * 365 + p / 4 - p / 100 + p / 400)%Z.

Definition days_before_month (y m : Z) : Z :=
  (match m with
   | 1 => 0 | 2 => 31 | 3 => 59 | 4 => 90 | 5 => 120 | 6 => 151 | 7 => 181
   | 8 => 212 | 9 => 243 | 10 => 273 | 11 => 304 | _ => 334
   end + (if (2 <? m) && is_leap y then 1 else 0))%Z.

Definition toordinal (t : pyday) : Z :=
  match t with
  | Date y m d | DateTime y m d _ _ _ _ =>
      (days_before_year y + days_before_month y m + d)%Z
  end.

Definition time_of_day (t : pyday) : option (Z * Z * Z * Z) :=
  match t with
  | Date _ _ _ => None
  | DateTime _ _ _ hh mm ss us => Some (hh, mm, ss, us)
  end.

(** ["%0wd" % n] for [0 <= n < 10^w]. *)
Definition digit (n : Z) : ascii := ascii_of_N (Z.to_N (48 + n mod 10)).

Fixpoint zfill (w : nat) (n : Z) : string :=
  match w with
  | O => ""
  | S w' => zfill w' (n / 10) +:+ String (digit n) ""
  end.

Definition isoformat_date (y m d : Z) : string :=
  zfill 4 y +:+ "-" +:+ zfill 2 m +:+ "-" +:+ zfill 2 d.

Definition isoformat (t : pyday) : string :=
  match t with
  | Date y m d => isoformat_date y m d
  | DateTime y m d hh mm ss us =>
      isoformat_date y m d +:+ "T"
      +:+ zfill 2 hh +:+ ":" +:+ zfill 2 mm +:+ ":" +:+ zfill 2 ss
      +:+ (if (us =? 0)%Z then "" else "." +:+ zfill 6 us)
  end.

(** ** The file system, the remote service and the calls made *)

Inductive call :=
  | PathExists (fn : string)   (* os.path.exists(fn) *)
  | ReadCache (fn : string)    (* geopandas.read_file(fn) *)
  | HttpGet (url : string)     (* geopandas.read_file(url) *)
  | Prepare (df : frame)       (* prepare(df) *)
  | ToFile (fn : string).      (* df.to_file(fn) *)

Section Program.

Variable geo_to_h3 : num -> num -> nat -> result string.
Variable h3_to_geo_boundary : string -> result (list (num * num)).

(** What is stored under a file name; how geopandas decodes and encodes
    it; and what the service answers to a request. *)
Variable file : Type.
Variable read_file : file -> result (list row).
Variable to_file : list row -> result file.
Variable remote : string -> result frame.

Record world := World {
  files : gmap string file;
  calls : list call
}.

Definition M (A : Type) : Type := world -> result A * world.

Definition ret {A} (a : A) : M A := fun w => (Returned a, w).

Definition bind {A B} (m : M A) (k : A -> M B) : M B :=
  fun w =>
    match m w with
    | (Returned a, w') => k a w'
    | (Raised e, w') => (Raised e, w')
    end.

Definition lift {A} (r : result A) : M A := fun w => (r, w).

Definition record (c : call) : M unit :=
  fun w => (Returned tt, World (files w) (calls w ++ [c])).

Definition stored (fn : string) : M (option file) :=
  fun w => (Returned (files w !! fn), w).

Definition store (fn : string) (f : file) : M unit :=
  fun w => (Returned tt, World (<[fn := f]> (files w)) (calls w)).

Notation "'do' x <- m ; k" := (bind m (fun x => k))
  (at level 10, x name, m at level 100, k at level 200).

Definition download_points (url product : string) (day : pyday) : M frame :=
  do next <- lift (add_one_day day) ;
  let target :=
    url +:+ "/api/v2/" +:+ product +:+ "/geo.json"
        +:+ "?begin=" +:+ isoformat day
        +:+ "&end=" +:+ isoformat next in
  do _ <- record (HttpGet target) ;
  lift (remote target).

Definition cache_filename (product : string) (day : pyday) : string :=
  "cache-" +:+ product +:+ "-" +:+ isoformat day.

Definition cache_load (product : string) (day : pyday) : M (option (list row)) :=
  let fn := cache_filename product day in
  do _ <- record (PathExists fn) ;
  do found <- stored fn ;
  match found with
  | None => ret None
  | Some f =>
      do _ <- record (ReadCache fn) ;
      do df <- lift (read_file f) ;
      ret (Some df)
  end.

(** A failed write is taken to leave the file system as it was. *)
Definition cache_save (df : list row) (product : string) (day : pyday) : M unit :=
  let fn := cache_filename product day in
  do _ <- record (ToFile fn) ;
  do f <- lift (to_file df) ;
  store fn f.

Definition run_prepare (df : frame) : M (list row) :=
  do _ <- record (Prepare df) ;
  lift (fst (prepare geo_to_h3 h3_to_geo_boundary df)).

Definition get_points (url product : string) (day : pyday) (cache : bool)
  : M (list row) :=
  do df <- (if cache then cache_load product day else ret None) ;
  match df with
  | Some df => ret df
  | None =>
      do df <- download_points url product day ;
      do df <- run_prepare df ;
      do _ <- (if cache then cache_save df product day else ret tt) ;
      ret df
  end.

End Program.

Arguments World {file} files calls.
Arguments files {file} w.
Arguments calls {file} w.

(** ** A synthetic grid, to run the definitions on

    Three cells: "edge" holds every point from longitude 170 eastwards and
    is drawn across the antimeridian, "north" and "south" split the rest at
    the equator.  Like h3, the indexer takes any pair of numbers. *)

Definition q (n : Z) : num := Qc_of_Z n.

Definition toy_geo_to_h3 (lat lng : num) (res : nat) : result string :=
  if bool_decide (q 170 <= lng)%Qc then Returned "edge"
  else if bool_decide (q 0 <= lat)%Qc then Returned "north"
  else Returned "south".

Definition toy_boundary (h : string) : result (list (num * num)) :=
  if String.eqb h "edge" then
    Returned [(q (-5), q 175); (q 5, q 175); (q 5, q (-175)); (q (-5), q (-175))]
  else if String.eqb h "north" then
    Returned [(q 0, q (-5)); (q 10, q (-5)); (q 10, q 5); (q 0, q 5)]
  else if String.eqb h "south" then
    Returned [(q (-10), q (-5)); (q 0, q (-5)); (q 0, q 5); (q (-10), q 5)]
  else Raised "H3CellError".

(** An indexer that refuses latitudes beyond the poles. *)
Definition strict_geo_to_h3 (lat lng : num) (res : nat) : result string :=
  if bool_decide (q 90 < lat)%Qc || bool_decide (lat < q (-90))%Qc
  then Raised "ValueError"
  else toy_geo_to_h3 lat lng res.

Definition toy_frame : frame :=
  Frame [Feature (q 1) (q 2) 10; Feature (q 175) (q 0) 7;
         Feature (q 3) (q 4) 20; Feature (q 0) (q (-3)) 5] true None.

Definition toy_prepared : list row :=
  match fst (prepare toy_geo_to_h3 toy_boundary toy_frame) with
  | Returned out => out
  | Raised _ => []
  end.

(** A single point, one degree beyond the north pole; and one with the
    same value at latitude 45. *)
Definition polar_frame : frame := Frame [Feature (q 0) (q 91) 1] true None.

Definition temperate_frame : frame := Frame [Feature (q 0) (q 45) 1] true None.

(** Three points of the cell north, in two orders: values that cancel,
    and three tenths.  A decimal is the double nearest to it, as in
    Python. *)
#[local] Set Warnings "-inexact-float".

Definition cancelling_frame : frame :=
  Frame [Feature (q 1) (q 2) 1e100; Feature (q 3) (q 4) 3;
         Feature (q 5) (q 6) (-1e100)] true None.

Definition cancelling_frame_reordered : frame :=
  Frame [Feature (q 1) (q 2) 1e100; Feature (q 5) (q 6) (-1e100);
         Feature (q 3) (q 4) 3] true None.

Definition tenths_frame : frame :=
  Frame [Feature (q 1) (q 2) 0.1; Feature (q 3) (q 4) 0.7;
         Feature (q 5) (q 6) 0.3] true None.

Definition tenths_frame_reordered : frame :=
  Frame [Feature (q 1) (q 2) 0.1; Feature (q 5) (q 6) 0.3;
         Feature (q 3) (q 4) 0.7] true None.

(** ** Notions used to state the properties *)

Global Instance result_eq_dec {A} `{EqDecision A} : EqDecision (result A).
Proof. solve_decision. Defined.

Definition key_lt (a b : string) : Prop := String.compare a b = Lt.

(** A table is ordered when its keys increase strictly. *)
Definition ordered {V} (t : list (string * V)) : Prop :=
  StronglySorted key_lt (fmap fst t).

Fixpoint assoc {V} (k : string) (t : list (string * V)) : option V :=
  match t with
  | [] => None
  | (k', x) :: t' => if decide (k = k') then Some x else assoc k t'
  end.

Definition bump (v : float) (o : option running) : running :=
  add_value (default no_values o) v.

Definition summary (vs : list float) : option running :=
  match vs with
  | [] => None
  | _ => Some (fold_left add_value vs no_values)
  end.

(** The values filed under key [k], in row order. *)
Definition values_of (k : string) (keyed : list (string * float)) : list float :=
  fmap snd (filter (fun kv => fst kv = k) keyed).

Definition is_returned {A} (r : result A) : Prop :=
  match r with Returned _ => True | Raised _ => False end.

(** The non-null (cell key, mean value) pairs of a prepared data frame. *)
Definition cell_means (df : list row) : list (string * float) :=
  omap (fun r => match row_hex r, row_value r with
                 | Some k, Some m => Some (k, m)
                 | _, _ => None
                 end) df.

Definition cell_keys (df : list row) : list string := omap row_hex df.

(** A point inside a box, and a box within another. *)
Definition inside (b : box) (xy : num * num) : Prop :=
  (minx b <= fst xy <= maxx b)%Qc /\ (miny b <= snd xy <= maxy b)%Qc.

Definition within (b b' : box) : Prop :=
  (minx b' <= minx b)%Qc /\ (maxx b <= maxx b')%Qc /\
  (miny b' <= miny b)%Qc /\ (maxy b <= maxy b')%Qc.

(** The bounding box of the polygon is more than 180 degrees wide or high;
    and the contrary (a polygon without bounds is neither wide nor high). *)
Definition spans_over_180 (g : Polygon) : Prop :=
  exists b, bounds g = Some b /\
    ((q 180 < maxx b - minx b)%Qc \/ (q 180 < maxy b - miny b)%Qc).

Definition within_180 (g : Polygon) : Prop :=
  forall b, bounds g = Some b ->
    (maxx b - minx b <= q 180)%Qc /\ (maxy b - miny b <= q 180)%Qc.

Definition crossing (g : Polygon) : bool :=
  exceeds (Qc_of_Z 180) (span_y (bounds g))
  || exceeds (Qc_of_Z 180) (span_x (bounds g)).

(** The row that [prepare] leaves for a merged cell and its boundary. *)
Definition final_row (km : string * float) (polygon : list (num * num)) : row :=
  let g := MkPolygon (revert polygon) in
  if crossing g then null_row else Row (Some (fst km)) (Some (snd km)) (Some g).

Section GridNotions.

Variable geo_to_h3 : num -> num -> nat -> result string.

(** The features of the input that the indexer files under cell [k], and
    their values, in input order. *)
Definition in_cell (k : string) (p : feature) : Prop :=
  cell_of geo_to_h3 p = Returned k.

Global Instance in_cell_dec k p : Decision (in_cell k p).
Proof. unfold in_cell. apply _. Defined.

Definition cell_values (k : string) (pts : list feature) : list float :=
  fmap value (filter (in_cell k) pts).

(** The rows that are grouped: key and value of every feature. *)
Definition keyed_of (pts : list feature) : list (string * float) :=
  omap (fun p => match cell_of geo_to_h3 p with
                 | Returned h => Some (h, value p)
                 | Raised _ => None
                 end) pts.

(** The latitude or the longitude of the point is outside its range. *)
Definition out_of_range (p : feature) : Prop :=
  ~ (q (-90) <= geometry_y p <= q 90)%Qc \/ ~ (q (-180) <= geometry_x p <= q 180)%Qc.

End GridNotions.

(** The shape of a string: in a pattern, [d] stands for any decimal digit
    and every other character for itself. *)
Definition is_digit (c : ascii) : bool :=
  (48 <=? N_of_ascii c)%N && (N_of_ascii c <=? 57)%N.

Fixpoint matches (pattern s : string) : bool :=
  match pattern, s with
  | EmptyString, EmptyString => true
  | String p pattern', String c s' =>
      (if Ascii.eqb p "d" then is_digit c else Ascii.eqb p c) && matches pattern' s'
  | _, _ => false
  end.

(** ISO 8601: a calendar date, and a date with a time of day. *)
Definition iso_date (s : string) : bool := matches "dddd-dd-dd" s.

Definition iso_date_time (s : string) : bool :=
  matches "dddd-dd-ddTdd:dd:dd" s || matches "dddd-dd-ddTdd:dd:dd.dddddd" s.

(** The number that a string of decimal digits writes. *)
Definition decimal_value (s : string) : Z :=
  fold_left (fun acc c => (10 * acc + (Z.of_N (N_of_ascii c) - 48))%Z)
            (list_ascii_of_string s) 0%Z.

Definition is_cache_call (c : call) : bool :=
  match c with
  | PathExists _ | ReadCache _ | ToFile _ => true
  | HttpGet _ | Prepare _ => false
  end.

Fixpoint digits_pattern (w : nat) : string :=
  match w with
  | O => ""
  | S w' => digits_pattern w' +:+ "d"
  end.

(** The shape in which Python writes a day. *)
Definition iso_shape (t : pyday) : string :=
  match t with
  | Date _ _ _ => "dddd-dd-dd"
  | DateTime _ _ _ _ _ _ us =>
      if (us =? 0)%Z then "dddd-dd-ddTdd:dd:dd" else "dddd-dd-ddTdd:dd:dd.dddddd"
  end.

(** The address that [download_points] asks for. *)
Definition request (url product : string) (day next : pyday) : string :=
  url +:+ "/api/v2/" +:+ product +:+ "/geo.json?begin=" +:+ isoformat day
      +:+ "&end=" +:+ isoformat next.

(** A service that answers every request with the same four features, and
    a cache that stores frames as they are. *)
Definition toy_remote (url : string) : result frame := Returned toy_frame.

Definition toy_get_points :=
  get_points toy_geo_to_h3 toy_boundary (list row) Returned Returned toy_remote.

(** Every side of the box passes through a point of the list. *)
Definition attained (pts : list (num * num)) (b : box) : Prop :=
  (exists v, v ∈ pts /\ fst v = minx b) /\ (exists v, v ∈ pts /\ fst v = maxx b) /\
  (exists v, v ∈ pts /\ snd v = miny b) /\ (exists v, v ∈ pts /\ snd v = maxy b).

(** The characters of a day in writing. *)
Definition day_chars (t : pyday) : list ascii :=
  list_ascii_of_string (isoformat t).

(** ** The command line: __main__.py

    What argparse leaves in a field is the default written in the source
    or, for an option that was given, its text: only [--vmin] and [--vmax]
    have a type, so that the sizes are numbers by default and strings when
    given.  An option given twice keeps its last value.  Refusals by
    argparse itself (an unknown option, a missing product or day, a
    [--vmin] that is no number) end the program before anything else and
    are not modelled: the options here are the ones it accepted. *)

Inductive pyval :=
  | PyInt (n : Z)
  | PyStr (s : string).

Inductive cli_option :=
  | OptVerbose
  | OptUrl (s : string)
  | OptNoCaching
  | OptOutput (s : string)
  | OptColormap (s : string)
  | OptLegend
  | OptPixelsX (s : string)
  | OptPixelsY (s : string)
  | OptDpi (s : string)
  | OptTitle (s : string)
  | OptLegendTitle (s : string)
  | OptFontSize (s : string)
  | OptVmin (v : float)
  | OptVmax (v : float).

(** The namespace that [parser.parse_args()] returns. *)
Record namespace := Namespace {
  ns_verbose : bool;
  ns_url : string;
  ns_no_caching : bool;
  ns_output : option string;
  ns_colormap : string;
  ns_legend : bool;
  ns_pixels_x : pyval;
  ns_pixels_y : pyval;
  ns_dpi : pyval;
  ns_title : option string;
  ns_legend_title : option string;
  ns_font_size : pyval;
  ns_vmin : option float;
  ns_vmax : option float;
  ns_product : string;
  ns_day : string
}.

Definition defaults (product day : string) : namespace :=
  Namespace false "https://api.v2.emissions-api.org" false None "gist_rainbow"
            false (PyInt 8000) (PyInt 4000) (PyInt 96) None None (PyInt 50)
            None None product day.

Definition set_option (ns : namespace) (o : cli_option) : namespace :=
  let '(Namespace v u nc out c l px py dpi t lt fs lo hi p d) := ns in
  match o with
  | OptVerbose => Namespace true u nc out c l px py dpi t lt fs lo hi p d
  | OptUrl s => Namespace v s nc out c l px py dpi t lt fs lo hi p d
  | OptNoCaching => Namespace v u true out c l px py dpi t lt fs lo hi p d
  | OptOutput s => Namespace v u nc (Some s) c l px py dpi t lt fs lo hi p d
  | OptColormap s => Namespace v u nc out s l px py dpi t lt fs lo hi p d
  | OptLegend => Namespace v u nc out c true px py dpi t lt fs lo hi p d
  | OptPixelsX s => Namespace v u nc out c l (PyStr s) py dpi t lt fs lo hi p d
  | OptPixelsY s => Namespace v u nc out c l px (PyStr s) dpi t lt fs lo hi p d
  | OptDpi s => Namespace v u nc out c l px py (PyStr s) t lt fs lo hi p d
  | OptTitle s => Namespace v u nc out c l px py dpi (Some s) lt fs lo hi p d
  | OptLegendTitle s => Namespace v u nc out c l px py dpi t (Some s) fs lo hi p d
  | OptFontSize s => Namespace v u nc out c l px py dpi t lt (PyStr s) lo hi p d
  | OptVmin x => Namespace v u nc out c l px py dpi t lt fs (Some x) hi p d
  | OptVmax x => Namespace v u nc out c l px py dpi t lt fs lo (Some x) p d
  end.

Definition parse_args (opts : list cli_option) (product day : string) : namespace :=
  fold_left set_option opts (defaults product day).

(** [not x] for a field that is None or a string. *)
Definition falsy (o : option string) : bool :=
  match o with
  | None => true
  | Some s => String.eqb s ""
  end.

(** The arguments as [parse_command_line] returns them: the day is a date,
    and output, title and legend title are set. *)
Record arguments := MkArguments {
  a_verbose : bool;
  a_url : string;
  a_no_caching : bool;
  a_output : string;
  a_colormap : string;
  a_legend : bool;
  a_pixels_x : pyval;
  a_pixels_y : pyval;
  a_dpi : pyval;
  a_title : string;
  a_legend_title : string;
  a_font_size : pyval;
  a_vmin : option float;
  a_vmax : option float;
  a_product : string;
  a_day : pyday
}.

(** [a / b] on what a field may hold. *)
Definition py_truediv (a b : pyval) : result num :=
  match a, b with
  | PyInt x, PyInt y =>
      if (y =? 0)%Z then Raised "ZeroDivisionError"
      else Returned (Qc_of_Z x / Qc_of_Z y)%Qc
  | _, _ => Raised "TypeError"
  end.

(** The call of [plot] that [main] ends with, by its arguments. *)
Record plot_call := PlotCall {
  pc_data : list row;
  pc_output : string;
  pc_size : num * num;
  pc_dpi : pyval;
  pc_legend : bool;
  pc_cmap : string;
  pc_title : string;
  pc_legend_title : string;
  pc_font_size : pyval;
  pc_vmin : option float;
  pc_vmax : option float
}.

Section Main.

Variable geo_to_h3 : num -> num -> nat -> result string.
Variable h3_to_geo_boundary : string -> result (list (num * num)).
Variable file : Type.
Variable read_file : file -> result (list row).
Variable to_file : list row -> result file.
Variable remote : string -> result frame.

(** [datetime.date.fromisoformat], giving year, month and day, and
    [str.capitalize]. *)
Variable fromisoformat : string -> result (Z * Z * Z).
Variable capitalize : string -> string.

Definition parse_command_line (opts : list cli_option) (product day : string)
  : result arguments :=
  let args := parse_args opts product day in
  rbind (fromisoformat (ns_day args)) (fun '(y, m, d) =>
    let day := Date y m d in
    let output :=
      if falsy (ns_output args)
      then ns_product args +:+ "-" +:+ isoformat day +:+ ".png"
      else default "" (ns_output args) in
    let title :=
      if falsy (ns_title args)
      then capitalize (ns_product args) +:+ " " +:+ isoformat day
      else default "" (ns_title args) in
    let legend_title :=
      if falsy (ns_legend_title args)
      then capitalize (ns_product args)
      else default "" (ns_legend_title args) in
    Returned
      (MkArguments (ns_verbose args) (ns_url args) (ns_no_caching args) output
                   (ns_colormap args) (ns_legend args) (ns_pixels_x args)
                   (ns_pixels_y args) (ns_dpi args) title legend_title
                   (ns_font_size args) (ns_vmin args) (ns_vmax args)
                   (ns_product args) day)).

Notation "'do' x <- m ; k" := (bind file m (fun x => k))
  (at level 10, x name, m at level 100, k at level 200).

(** [main], up to the call of [plot]: what it returns here is that call. *)
Definition main (opts : list cli_option) (product day : string) : M file plot_call :=
  do args <- lift file (parse_command_line opts product day) ;
  do df <- get_points geo_to_h3 h3_to_geo_boundary file read_file to_file remote
                      (a_url args) (a_product args) (a_day args)
                      (negb (a_no_caching args)) ;
  do size_x <- lift file (py_truediv (a_pixels_x args) (a_dpi args)) ;
  do size_y <- lift file (py_truediv (a_pixels_y args) (a_dpi args)) ;
  ret file
    (PlotCall df (a_output args) (size_x, size_y) (a_dpi args) (a_legend args)
              (a_colormap args) (a_title args) (a_legend_title args)
              (a_font_size args) (a_vmin args) (a_vmax args)).

End Main.

(** The YYYY-MM-DD form of [fromisoformat], and [capitalize] on ASCII
    letters, to run [main] on. *)
Definition valid_dateb (y m d : Z) : bool :=
  (1 <=? y)%Z && (y <=? 9999)%Z && (1 <=? m)%Z && (m <=? 12)%Z
  && (1 <=? d)%Z && (d <=? days_in_month y m)%Z.

Definition toy_fromisoformat (s : string) : result (Z * Z * Z) :=
  let y := decimal_value (substring 0 4 s) in
  let m := decimal_value (substring 5 2 s) in
  let d := decimal_value (substring 8 2 s) in
  if iso_date s && valid_dateb y m d then Returned (y, m, d)
  else Raised "ValueError".

Definition toy_capitalize (s : string) : string :=
  match s with
  | EmptyString => EmptyString
  | String c s' =>
      let n := N_of_ascii c in
      String (if (97 <=? n)%N && (n <=? 122)%N then ascii_of_N (n - 32) else c) s'
  end.

Definition toy_main :=
  main toy_geo_to_h3 toy_boundary (list row) Returned Returned toy_remote
       toy_fromisoformat toy_capitalize.

(** The options that set a size: [--pixels_x], [--pixels_y], [--dpi]. *)
Definition is_size_option (o : cli_option) : bool :=
  match o with
  | OptPixelsX _ | OptPixelsY _ | OptDpi _ => true
  | _ => false
  end.

(** A boundary service that fails on the cell north, and a frame whose
    second and third points lie beyond the pole. *)
Definition partial_boundary (h : string) : result (list (num * num)) :=
  if String.eqb h "north" then Raised "H3CellError" else toy_boundary h.

Definition beyond_frame : frame :=
  Frame [Feature (q 1) (q 2) 10; Feature (q 0) (q 91) 1;
         Feature (q 0) (q (-95)) 1] true None.

Definition toy_arguments (opts : list cli_option) : arguments :=
  let ns := parse_args opts "ozone" "2020-02-28" in
  MkArguments
    (ns_verbose ns) (ns_url ns) (ns_no_caching ns)
    (if falsy (ns_output ns) then "ozone-2020-02-28.png"
     else default "" (ns_output ns))
    (ns_colormap ns) (ns_legend ns) (ns_pixels_x ns) (ns_pixels_y ns) (ns_dpi ns)
    (if falsy (ns_title ns) then "Ozone 2020-02-28" else default "" (ns_title ns))
    (if falsy (ns_legend_title ns) then "Ozone"
     else default "" (ns_legend_title ns))
    (ns_font_size ns) (ns_vmin ns) (ns_vmax ns) "ozone" (Date 2020 2 28).

(** * Properties *)

(** ** Results and comprehensions *)

Lemma comprehension_returned {A B} (f : A -> result B) l ys :
  comprehension f l = Returned ys <-> Forall2 (fun x y => f x = Returned y) l ys.
Proof.
  revert ys. induction l as [|x l IH]; intros ys; simpl.
  - split.
    + intros [= <-]. constructor.
    + intros H. inversion H. reflexivity.
  - destruct (f x) as [y|e] eqn:Hx; simpl.
    + destruct (comprehension f l) as [zs|e] eqn:Hl; simpl.
      * split.
        -- intros [= <-]. constructor; [exact Hx | now apply IH].
        -- intros H. inversion H as [|? y' ? zs' Hy Hrest]; subst.
           rewrite Hx in Hy. injection Hy as <-.
           apply IH in Hrest. injection Hrest as <-. reflexivity.
      * split; [discriminate|].
        intros H. inversion H as [|? y' ? zs' Hy Hrest]; subst.
        apply IH in Hrest. discriminate.
    + split; [discriminate|].
      intros H. inversion H as [|? y' ? zs' Hy Hrest]; subst.
      rewrite Hx in Hy. discriminate.
Qed.

(** A comprehension raises exactly the exception of the first element on
    which the function raises. *)
Lemma comprehension_raised {A B} (f : A -> result B) l e :
  comprehension f l = Raised e <->
  exists l1 x l2 ys, l = l1 ++ x :: l2 /\
    Forall2 (fun x y => f x = Returned y) l1 ys /\ f x = Raised e.
Proof.
  induction l as [|x l IH]; simpl.
  - split; [discriminate|].
    intros (l1 & x & l2 & ys & H & _). destruct l1; discriminate.
  - destruct (f x) as [y|e'] eqn:Hx; simpl.
    + destruct (comprehension f l) as [zs|e'] eqn:Hl; simpl.
      * split; [discriminate|].
        intros (l1 & x' & l2 & ys & H & Hok & Hbad).
        destruct l1 as [|a l1]; simplify_eq/=; [congruence|].
        inversion Hok; subst.
        assert (Returned zs = Raised e :> result (list B)) by
          (apply IH; eauto 10). discriminate.
      * split.
        -- intros [= ->].
           destruct (proj1 IH eq_refl) as (l1 & x' & l2 & ys & -> & Hok & Hbad).
           exists (x :: l1), x', l2, (y :: ys). repeat split; auto.
        -- intros (l1 & x' & l2 & ys & H & Hok & Hbad).
           destruct l1 as [|a l1]; simplify_eq/=; [congruence|].
           inversion Hok; subst.
           assert (Hr : Raised e' = Raised e :> result (list B)) by
             (apply IH; eauto 10). now injection Hr as ->.
    + split.
      * intros [= ->]. exists [], x, l, []. repeat split; auto.
      * intros (l1 & x' & l2 & ys & H & Hok & Hbad).
        destruct l1 as [|a l1]; simplify_eq/=; [congruence|].
        inversion Hok; subst. congruence.
Qed.

Lemma comprehension_total {A B} (f : A -> result B) l :
  Forall (fun x => exists y, f x = Returned y) l ->
  exists ys, comprehension f l = Returned ys.
Proof.
  induction 1 as [|x l [y Hy] _ [ys IH]]; simpl; [eauto|].
  rewrite Hy, IH. simpl. eauto.
Qed.

Lemma comprehension_length {A B} (f : A -> result B) l ys :
  comprehension f l = Returned ys -> length ys = length l.
Proof.
  intros H. apply comprehension_returned in H.
  symmetry. eapply Forall2_length, H.
Qed.

(** ** The order on keys *)

Lemma key_lt_trans a b c : key_lt a b -> key_lt b c -> key_lt a c.
Proof.
  unfold key_lt. intros H1 H2.
  apply String_as_OT.cmp_lt. apply String_as_OT.cmp_lt in H1, H2.
  eapply String_as_OT.lt_trans; eauto.
Qed.

Lemma key_lt_neq a b : key_lt a b -> a <> b.
Proof.
  unfold key_lt. intros H ->.
  assert (String.compare b b = Eq) as E by now apply String_as_OT.cmp_eq.
  congruence.
Qed.

Lemma compare_Gt_key_lt a b : String.compare a b = Gt -> key_lt b a.
Proof.
  unfold key_lt. intros H. rewrite String.compare_antisym, H. reflexivity.
Qed.

Lemma compare_Eq_eq a b : String.compare a b = Eq -> a = b.
Proof. apply String.compare_eq_iff. Qed.

(** ** Ordered tables *)

Lemma ordered_cons {V} k (x : V) t :
  ordered ((k, x) :: t) <-> Forall (key_lt k) (fmap fst t) /\ ordered t.
Proof.
  unfold ordered. simpl. split.
  - intros H. inversion H; subst. auto.
  - intros [H1 H2]. now constructor.
Qed.

Lemma assoc_None {V} k (t : list (string * V)) :
  assoc k t = None <-> k ∉ fmap fst t.
Proof.
  induction t as [|[k' x] t IH]; simpl.
  - split; [intros _; apply not_elem_of_nil | reflexivity].
  - rewrite not_elem_of_cons. destruct (decide (k = k')); [|tauto].
    split; [discriminate | tauto].
Qed.

Lemma assoc_below {V} k (t : list (string * V)) :
  Forall (key_lt k) (fmap fst t) -> assoc k t = None.
Proof.
  intros H. apply assoc_None. intros Hin.
  rewrite Forall_forall in H. eapply key_lt_neq; eauto.
Qed.

Lemma assoc_elem_of {V} k (x : V) t :
  ordered t -> ((k, x) ∈ t <-> assoc k t = Some x).
Proof.
  induction t as [|[k' x'] t IH]; simpl; intros Ho.
  - split; [intros H; inversion H | discriminate].
  - apply ordered_cons in Ho as [Hlt Ho]. rewrite elem_of_cons.
    destruct (decide (k = k')) as [->|Hne].
    + split.
      * intros [[= ->]|Hin]; [reflexivity|].
        exfalso. apply (assoc_below k' t) in Hlt.
        apply assoc_None in Hlt. apply Hlt.
        apply list_elem_of_fmap. exists (k', x). auto.
      * intros [= ->]. now left.
    + rewrite <- IH by assumption. split; [|tauto].
      intros [[= -> ->]|]; [congruence | assumption].
Qed.

Lemma ordered_NoDup {V} (t : list (string * V)) : ordered t -> NoDup (fmap fst t).
Proof.
  induction t as [|[k x] t IH]; simpl; intros Ho; [constructor|].
  apply ordered_cons in Ho as [Hlt Ho]. constructor; [|auto].
  apply assoc_None. now apply assoc_below.
Qed.

(** Two ordered tables that answer every lookup alike are the same table. *)
Lemma ordered_ext {V} (t1 t2 : list (string * V)) :
  ordered t1 -> ordered t2 -> (forall k, assoc k t1 = assoc k t2) -> t1 = t2.
Proof.
  revert t2. induction t1 as [|[k1 x1] t1 IH]; intros [|[k2 x2] t2] Ho1 Ho2 Heq.
  - reflexivity.
  - specialize (Heq k2). simpl in Heq. now rewrite decide_True in Heq.
  - specialize (Heq k1). simpl in Heq. now rewrite decide_True in Heq.
  - apply ordered_cons in Ho1 as [Hlt1 Ho1]. apply ordered_cons in Ho2 as [Hlt2 Ho2].
    assert (k1 = k2) as <-.
    { pose proof (Heq k1) as E1. pose proof (Heq k2) as E2. simpl in E1, E2.
      rewrite decide_True in E1 by reflexivity.
      rewrite (decide_True (P := k2 = k2)) in E2 by reflexivity.
      destruct (decide (k1 = k2)) as [|Hne]; [assumption|exfalso].
      rewrite decide_False in E2 by congruence.
      symmetry in E1. apply assoc_elem_of in E1; [|assumption].
      apply assoc_elem_of in E2; [|assumption].
      assert (key_lt k2 k1).
      { rewrite Forall_forall in Hlt2. apply Hlt2.
        apply list_elem_of_fmap. exists (k1, x1). auto. }
      assert (key_lt k1 k2).
      { rewrite Forall_forall in Hlt1. apply Hlt1.
        apply list_elem_of_fmap. exists (k2, x2). auto. }
      eapply key_lt_neq; [eapply key_lt_trans; eauto | reflexivity]. }
    pose proof (Heq k1) as E. simpl in E. rewrite !decide_True in E by reflexivity.
    injection E as <-. f_equal. apply IH; auto.
    intros k. specialize (Heq k). simpl in Heq.
    destruct (decide (k = k1)) as [->|]; [|assumption].
    rewrite !assoc_below; auto.
Qed.

(** ** One step of the aggregation *)

Lemma accumulate_keys k v t k' :
  k' ∈ fmap fst (accumulate k v t) <-> k' = k \/ k' ∈ fmap fst t.
Proof.
  induction t as [|[k0 r] t IH]; simpl.
  - rewrite list_elem_of_singleton. split; [auto|].
    intros [?|H]; [assumption | inversion H].
  - destruct (String.compare k k0) eqn:Hc; rewrite ?fmap_cons, ?elem_of_cons; simpl.
    + apply compare_Eq_eq in Hc as ->. tauto.
    + tauto.
    + rewrite IH. tauto.
Qed.

Lemma accumulate_ordered k v t : ordered t -> ordered (accumulate k v t).
Proof.
  induction t as [|[k0 r] t IH]; simpl; intros Ho.
  - apply ordered_cons. split; constructor.
  - pose proof Ho as Ho'. apply ordered_cons in Ho' as [Hlt Hot].
    destruct (String.compare k k0) eqn:Hc.
    + apply ordered_cons. auto.
    + apply ordered_cons. split; [|assumption].
      simpl. constructor; [exact Hc|].
      eapply Forall_impl; [exact Hlt|]. intros k1. now apply key_lt_trans.
    + apply ordered_cons. split; [|auto].
      apply Forall_forall. intros k1 [->|Hin]%accumulate_keys.
      * now apply compare_Gt_key_lt.
      * rewrite Forall_forall in Hlt. auto.
Qed.

Lemma accumulate_assoc_same k v t :
  ordered t -> assoc k (accumulate k v t) = Some (bump v (assoc k t)).
Proof.
  induction t as [|[k0 r] t IH]; simpl; intros Ho.
  - now rewrite decide_True.
  - apply ordered_cons in Ho as [Hlt Hot].
    destruct (String.compare k k0) eqn:Hc; simpl.
    + apply compare_Eq_eq in Hc as ->. now rewrite !decide_True.
    + rewrite decide_True by reflexivity.
      assert (k <> k0) by now apply key_lt_neq.
      rewrite decide_False by assumption.
      rewrite assoc_below; [reflexivity|].
      eapply Forall_impl; [exact Hlt|]. intros k1. now apply key_lt_trans.
    + assert (k <> k0).
      { intros ->. apply compare_Gt_key_lt in Hc. now apply key_lt_neq in Hc. }
      rewrite !decide_False by assumption. auto.
Qed.

Lemma accumulate_assoc_other k v t k' :
  k' <> k -> assoc k' (accumulate k v t) = assoc k' t.
Proof.
  intros Hne. induction t as [|[k0 r] t IH]; simpl.
  - now rewrite decide_False.
  - destruct (String.compare k k0) eqn:Hc; simpl.
    + apply compare_Eq_eq in Hc as ->. now rewrite !decide_False.
    + now rewrite decide_False.
    + destruct (decide (k' = k0)); auto.
Qed.

(** ** The whole pass *)

Lemma fold_accumulate_ordered keyed t :
  ordered t ->
  ordered (fold_left (fun t kv => accumulate (fst kv) (snd kv) t) keyed t).
Proof.
  revert t. induction keyed as [|[k v] keyed IH]; simpl; intros t Ho; [assumption|].
  apply IH. now apply accumulate_ordered.
Qed.

Lemma summary_snoc vs v : summary (vs ++ [v]) = Some (bump v (summary vs)).
Proof.
  destruct vs as [|x vs]; [reflexivity|].
  change ((x :: vs) ++ [v]) with (x :: (vs ++ [v])).
  cbn [summary bump default]. f_equal.
  change (x :: (vs ++ [v])) with ((x :: vs) ++ [v]).
  now rewrite fold_left_app.
Qed.

Lemma values_of_snoc k keyed k' v :
  values_of k (keyed ++ [(k', v)]) =
  if decide (k' = k) then values_of k keyed ++ [v] else values_of k keyed.
Proof.
  unfold values_of. rewrite filter_app, fmap_app.
  rewrite filter_cons, filter_nil. simpl.
  destruct (decide (k' = k)); simpl; [reflexivity | apply app_nil_r].
Qed.

(** After the pass, the entry of a key is the running sum of the values
    filed under it, added in row order; a key without values has no
    entry. *)
Lemma group_sums_assoc keyed k :
  ordered (group_sums keyed) /\
  assoc k (group_sums keyed) = summary (values_of k keyed).
Proof.
  unfold group_sums. induction keyed as [|[k' v] keyed [IHo IHa]] using rev_ind.
  - split; [constructor | reflexivity].
  - rewrite fold_left_app. simpl. split.
    + now apply accumulate_ordered.
    + rewrite values_of_snoc. destruct (decide (k' = k)) as [->|Hne].
      * rewrite accumulate_assoc_same by assumption.
        now rewrite IHa, summary_snoc.
      * rewrite accumulate_assoc_other by congruence. exact IHa.
Qed.

Lemma group_sums_ordered keyed : ordered (group_sums keyed).
Proof. exact (proj1 (group_sums_assoc keyed "")). Qed.

Lemma values_of_Permutation k l1 l2 :
  l1 ≡ₚ l2 -> values_of k l1 ≡ₚ values_of k l2.
Proof. intros H. unfold values_of. now rewrite H. Qed.

(** The table depends on the rows only through the values filed under
    each key, in their order. *)
Lemma group_sums_ext l1 l2 :
  (forall k, values_of k l1 = values_of k l2) -> group_sums l1 = group_sums l2.
Proof.
  intros H. apply ordered_ext; try apply group_sums_ordered.
  intros k. rewrite !(proj2 (group_sums_assoc _ k)). now rewrite H.
Qed.

(** ** The means *)

Lemma summary_Some vs r :
  summary vs = Some r <-> vs <> [] /\ r = fold_left add_value vs no_values.
Proof.
  destruct vs as [|v vs]; simpl.
  - split; [discriminate | intros [[] _]; reflexivity].
  - split.
    + intros [= <-]. split; [discriminate | reflexivity].
    + intros (_ & ->). reflexivity.
Qed.

Lemma groupby_mean_keys keyed :
  fmap fst (groupby_mean keyed) = fmap fst (group_sums keyed).
Proof.
  unfold groupby_mean. rewrite <- list_fmap_compose. reflexivity.
Qed.

Lemma groupby_mean_ordered keyed : ordered (groupby_mean keyed).
Proof.
  unfold ordered. rewrite groupby_mean_keys. apply group_sums_ordered.
Qed.

(** The merged frame has a row for a key exactly when some value is filed
    under it, and that row holds the mean of these values, taken in row
    order. *)
Lemma groupby_mean_elem keyed k m :
  (k, m) ∈ groupby_mean keyed <->
  values_of k keyed <> [] /\ m = arithmetic_mean (values_of k keyed).
Proof.
  destruct (group_sums_assoc keyed k) as [Ho Ha].
  unfold groupby_mean. rewrite list_elem_of_fmap. split.
  - intros ([k' r] & Heq & Hin). simpl in Heq. injection Heq as <- ->.
    apply assoc_elem_of in Hin; [|assumption].
    rewrite Ha in Hin. apply summary_Some in Hin as (Hne & ->).
    split; [assumption | reflexivity].
  - intros [Hne ->].
    exists (k, fold_left add_value (values_of k keyed) no_values).
    split; [reflexivity|].
    apply assoc_elem_of; [assumption|]. rewrite Ha.
    apply summary_Some. auto.
Qed.

(** Two lists of keys in strictly increasing order with the same members
    are the same list. *)
Lemma sorted_keys_ext (l1 l2 : list string) :
  StronglySorted key_lt l1 -> StronglySorted key_lt l2 ->
  (forall k, k ∈ l1 <-> k ∈ l2) -> l1 = l2.
Proof.
  revert l2. induction l1 as [|a l1 IH]; intros [|b l2] H1 H2 Heq.
  - reflexivity.
  - exfalso. apply (not_elem_of_nil b), Heq. left.
  - exfalso. apply (not_elem_of_nil a), Heq. left.
  - inversion H1 as [|? ? Hs1 Ha]; inversion H2 as [|? ? Hs2 Hb]; subst.
    rewrite Forall_forall in Ha, Hb.
    assert (a = b) as <-.
    { pose proof (proj1 (Heq a) ltac:(left)) as Hab.
      pose proof (proj2 (Heq b) ltac:(left)) as Hba.
      apply elem_of_cons in Hab as [|Hab]; [assumption|].
      apply elem_of_cons in Hba as [|Hba]; [congruence|].
      exfalso. apply (key_lt_neq a a); [|reflexivity].
      eapply key_lt_trans; [apply Ha, Hba | apply Hb, Hab]. }
    f_equal. apply IH; try assumption.
    intros k. split; intros Hk.
    + pose proof (proj1 (Heq k) ltac:(now right)) as Hk'.
      apply elem_of_cons in Hk' as [->|]; [|assumption].
      exfalso. now apply (key_lt_neq a a); [apply Ha|].
    + pose proof (proj2 (Heq k) ltac:(now right)) as Hk'.
      apply elem_of_cons in Hk' as [->|]; [|assumption].
      exfalso. now apply (key_lt_neq a a); [apply Hb|].
Qed.

(** The keys of the merged frame do not depend on the order of the rows. *)
Lemma groupby_mean_keys_Permutation l1 l2 :
  l1 ≡ₚ l2 -> fmap fst (groupby_mean l1) = fmap fst (groupby_mean l2).
Proof.
  intros H. apply sorted_keys_ext; try apply groupby_mean_ordered.
  intros k. rewrite !list_elem_of_fmap.
  assert (forall l l', l ≡ₚ l' ->
            (exists km, k = fst km /\ km ∈ groupby_mean l) ->
            exists km, k = fst km /\ km ∈ groupby_mean l') as Hstep.
  { intros l l' Hp ([k' m] & -> & Hin). simpl.
    apply groupby_mean_elem in Hin as [Hne _].
    exists (k', arithmetic_mean (values_of k' l')). split; [reflexivity|].
    apply groupby_mean_elem. split; [|reflexivity].
    intros Hnil. apply Hne.
    apply Permutation_nil_r. rewrite <- Hnil.
    now apply values_of_Permutation. }
  split; apply Hstep; [assumption | now symmetry].
Qed.

(** ** From features to grouped rows *)

Section GridFacts.

Variable geo_to_h3 : num -> num -> nat -> result string.
Variable h3_to_geo_boundary : string -> result (list (num * num)).


Lemma comprehension_keyed pts hexes :
  comprehension (cell_of geo_to_h3) pts = Returned hexes ->
  zip hexes (fmap value pts) = keyed_of geo_to_h3 pts.
Proof.
  intros H. apply comprehension_returned in H.
  induction H as [|p h pts hexes Hp _ IH]; [reflexivity|].
  unfold keyed_of. simpl.
  rewrite Hp. simpl. f_equal. exact IH.
Qed.

Lemma keyed_of_cons p pts :
  keyed_of geo_to_h3 (p :: pts) =
  match cell_of geo_to_h3 p with
  | Returned h => (h, value p) :: keyed_of geo_to_h3 pts
  | Raised _ => keyed_of geo_to_h3 pts
  end.
Proof.
  unfold keyed_of. simpl.
  now destruct (cell_of geo_to_h3 p).
Qed.

Lemma values_of_cons k h v l :
  values_of k ((h, v) :: l) =
  if decide (h = k) then v :: values_of k l else values_of k l.
Proof.
  unfold values_of. rewrite filter_cons. simpl. now destruct (decide (h = k)).
Qed.

Lemma cell_values_cons k p pts :
  cell_values geo_to_h3 k (p :: pts) =
  match cell_of geo_to_h3 p with
  | Returned h => if decide (h = k) then value p :: cell_values geo_to_h3 k pts
                  else cell_values geo_to_h3 k pts
  | Raised _ => cell_values geo_to_h3 k pts
  end.
Proof.
  unfold cell_values. rewrite filter_cons.
  destruct (decide (in_cell geo_to_h3 k p)) as [Hk|Hk]; unfold in_cell in Hk.
  - rewrite Hk. now rewrite decide_True.
  - destruct (cell_of geo_to_h3 p) as [h|e]; [|reflexivity].
    rewrite decide_False by congruence. reflexivity.
Qed.

Lemma values_of_keyed k pts :
  values_of k (keyed_of geo_to_h3 pts) = cell_values geo_to_h3 k pts.
Proof.
  induction pts as [|p pts IH]; [reflexivity|].
  rewrite keyed_of_cons, cell_values_cons.
  destruct (cell_of geo_to_h3 p) as [h|e]; [|exact IH].
  rewrite values_of_cons. destruct (decide (h = k)); now rewrite IH.
Qed.

Lemma keyed_of_Permutation pts pts' :
  pts ≡ₚ pts' -> keyed_of geo_to_h3 pts ≡ₚ keyed_of geo_to_h3 pts'.
Proof. intros H. unfold keyed_of. now rewrite H. Qed.

Lemma cell_values_Permutation k pts pts' :
  pts ≡ₚ pts' -> cell_values geo_to_h3 k pts ≡ₚ cell_values geo_to_h3 k pts'.
Proof. intros H. unfold cell_values. now rewrite H. Qed.

Lemma cell_values_nonempty k pts :
  cell_values geo_to_h3 k pts <> [] <-> exists p, p ∈ pts /\ in_cell geo_to_h3 k p.
Proof.
  unfold cell_values. split.
  - intros H. destruct (filter (in_cell geo_to_h3 k) pts) as [|p l] eqn:Hf; [done|].
    exists p. apply and_comm, (list_elem_of_filter (in_cell geo_to_h3 k)).
    rewrite Hf. left.
  - intros (p & Hin & Hk) Hnil.
    assert (p ∈ filter (in_cell geo_to_h3 k) pts) as Hp
      by (apply list_elem_of_filter; auto).
    apply (list_elem_of_fmap_2 value) in Hp. rewrite Hnil in Hp. inversion Hp.
Qed.

Lemma comprehension_Permutation {A B} (f : A -> result B) l l' ys :
  l ≡ₚ l' -> comprehension f l = Returned ys ->
  exists ys', comprehension f l' = Returned ys'.
Proof.
  intros Hp H. apply comprehension_total. rewrite <- Hp.
  apply comprehension_returned in H. clear Hp.
  induction H as [|x y l0 ys0 Hx _ IH]; constructor; eauto.
Qed.

(** The merged frame in terms of the input alone. *)
Lemma merge_points_elem pts hexes k m :
  comprehension (cell_of geo_to_h3) pts = Returned hexes ->
  (k, m) ∈ merge_points hexes pts <->
  cell_values geo_to_h3 k pts <> [] /\
  m = arithmetic_mean (cell_values geo_to_h3 k pts).
Proof.
  intros H. unfold merge_points. rewrite (comprehension_keyed _ _ H).
  rewrite groupby_mean_elem, values_of_keyed. reflexivity.
Qed.

Lemma merge_points_key pts hexes k :
  comprehension (cell_of geo_to_h3) pts = Returned hexes ->
  k ∈ fmap fst (merge_points hexes pts) <->
  exists p, p ∈ pts /\ in_cell geo_to_h3 k p.
Proof.
  intros H. rewrite <- cell_values_nonempty, list_elem_of_fmap. split.
  - intros ([k' m] & -> & Hin). now apply (merge_points_elem _ _ _ _ H) in Hin.
  - intros Hne. exists (k, arithmetic_mean (cell_values geo_to_h3 k pts)).
    split; [reflexivity|].
    now apply (merge_points_elem _ _ _ _ H).
Qed.


Lemma merge_points_ordered hexes pts : ordered (merge_points hexes pts).
Proof. apply groupby_mean_ordered. Qed.

(** The keys of the merged frame do not depend on the order of the
    features. *)
Lemma merge_points_keys_Permutation pts pts' hexes hexes' :
  pts ≡ₚ pts' ->
  comprehension (cell_of geo_to_h3) pts = Returned hexes ->
  comprehension (cell_of geo_to_h3) pts' = Returned hexes' ->
  fmap fst (merge_points hexes pts) = fmap fst (merge_points hexes' pts').
Proof.
  intros Hp H H'. unfold merge_points.
  rewrite (comprehension_keyed _ _ H), (comprehension_keyed _ _ H').
  apply groupby_mean_keys_Permutation, keyed_of_Permutation, Hp.
Qed.

Lemma merge_points_assoc_Permutation pts pts' hexes hexes' k m :
  pts ≡ₚ pts' ->
  comprehension (cell_of geo_to_h3) pts = Returned hexes ->
  comprehension (cell_of geo_to_h3) pts' = Returned hexes' ->
  arithmetic_mean (cell_values geo_to_h3 k pts')
  = arithmetic_mean (cell_values geo_to_h3 k pts) ->
  assoc k (merge_points hexes pts) = Some m ->
  assoc k (merge_points hexes' pts') = Some m.
Proof.
  intros Hp H H' Hm Ha.
  apply assoc_elem_of in Ha; [|apply merge_points_ordered].
  apply (merge_points_elem _ _ _ _ H) in Ha as [Hne ->].
  apply assoc_elem_of; [apply merge_points_ordered|].
  apply (merge_points_elem _ _ _ _ H'). split; [|now rewrite Hm].
  apply cell_values_nonempty. apply cell_values_nonempty in Hne as (p & Hin & Hk).
  exists p. split; [now rewrite <- Hp | assumption].
Qed.

(** The merged frame is the same for two orders of the features under
    which every cell has the same mean. *)
Lemma merge_points_ext pts pts' hexes hexes' :
  pts ≡ₚ pts' ->
  comprehension (cell_of geo_to_h3) pts = Returned hexes ->
  comprehension (cell_of geo_to_h3) pts' = Returned hexes' ->
  (forall k, (exists p, p ∈ pts /\ in_cell geo_to_h3 k p) ->
             arithmetic_mean (cell_values geo_to_h3 k pts')
             = arithmetic_mean (cell_values geo_to_h3 k pts)) ->
  merge_points hexes' pts' = merge_points hexes pts.
Proof.
  intros Hp H H' Hm. apply ordered_ext; try apply merge_points_ordered.
  intros k.
  destruct (assoc k (merge_points hexes pts)) as [m|] eqn:Ha.
  - apply (merge_points_assoc_Permutation pts pts' hexes hexes'); try assumption.
    apply Hm, cell_values_nonempty.
    apply assoc_elem_of in Ha; [|apply merge_points_ordered].
    now apply (merge_points_elem _ _ _ _ H) in Ha as [Hne _].
  - destruct (assoc k (merge_points hexes' pts')) as [m|] eqn:Ha'; [|reflexivity].
    rewrite <- Ha. symmetry.
    apply (merge_points_assoc_Permutation pts' pts hexes' hexes);
      try assumption; [now symmetry|].
    symmetry. apply Hm, cell_values_nonempty.
    apply assoc_elem_of in Ha'; [|apply merge_points_ordered].
    apply (merge_points_elem _ _ _ _ H') in Ha' as [Hne _].
    intros Hnil. apply Hne. apply Permutation_nil_r. rewrite <- Hnil.
    apply cell_values_Permutation. now symmetry.
Qed.

End GridFacts.

(** ** Bounds *)

Lemma num_min_le a b : (num_min a b <= a)%Qc /\ (num_min a b <= b)%Qc.
Proof.
  unfold num_min. destruct (decide (a <= b)%Qc) as [H|H].
  - split; [apply Qcle_refl | exact H].
  - split; [apply Qclt_le_weak, Qcnot_le_lt, H | apply Qcle_refl].
Qed.

Lemma num_max_ge a b : (a <= num_max a b)%Qc /\ (b <= num_max a b)%Qc.
Proof.
  unfold num_max. destruct (decide (a <= b)%Qc) as [H|H].
  - split; [exact H | apply Qcle_refl].
  - split; [apply Qcle_refl | apply Qclt_le_weak, Qcnot_le_lt, H].
Qed.

Lemma widen_grows b xy : within b (widen b xy) /\ inside (widen b xy) xy.
Proof.
  unfold within, inside, widen. simpl.
  pose proof (num_min_le (minx b) (fst xy)). pose proof (num_min_le (miny b) (snd xy)).
  pose proof (num_max_ge (maxx b) (fst xy)). pose proof (num_max_ge (maxy b) (snd xy)).
  tauto.
Qed.

Lemma fold_widen_grows rest b :
  within b (fold_left widen rest b) /\
  Forall (inside (fold_left widen rest b)) rest.
Proof.
  revert b. induction rest as [|xy rest IH]; intros b; simpl.
  - split; [|constructor]. unfold within. repeat split; apply Qcle_refl.
  - destruct (IH (widen b xy)) as [Hw Hin].
    destruct (widen_grows b xy) as [Hw0 Hin0].
    unfold within, inside in *. split; [|constructor; [|exact Hin]].
    + intuition (eapply Qcle_trans; eauto).
    + intuition (eapply Qcle_trans; eauto).
Qed.

(** The bounds of a polygon are a box around every point of its shell. *)
Lemma bounds_enclose p b xy :
  bounds p = Some b -> xy ∈ exterior p -> inside b xy.
Proof.
  unfold bounds. destruct (exterior p) as [|[x y] rest]; [discriminate|].
  intros [= <-] Hin. destruct (fold_widen_grows rest (Box x y x y)) as [Hw Hall].
  apply elem_of_cons in Hin as [->|Hin].
  - unfold within, inside in *. simpl in *. tauto.
  - rewrite Forall_forall in Hall. auto.
Qed.

(** ** The rows that prepare returns *)

Lemma crossing_spans g : crossing g = true <-> spans_over_180 g.
Proof.
  unfold crossing, spans_over_180, span_x, span_y, exceeds.
  destruct (bounds g) as [b|]; simpl.
  - rewrite orb_true_iff, !bool_decide_eq_true. split.
    + intros H. exists b. split; [reflexivity | tauto].
    + intros (b' & [= <-] & H). tauto.
  - split; [discriminate | intros (b & [=] & _)].
Qed.

Lemma crossing_within g : crossing g = false <-> within_180 g.
Proof.
  unfold crossing, within_180, span_x, span_y, exceeds.
  destruct (bounds g) as [b|]; simpl.
  - rewrite orb_false_iff, !bool_decide_eq_false, <- !Qcle_ngt. split.
    + intros H b' [= <-]. tauto.
    + intros H. destruct (H b eq_refl). tauto.
  - split; [intros _ b [=] | reflexivity].
Qed.

(** [Polygon] gives the polygon over the shell it is given, unless the
    shell has one or two points. *)
Lemma new_Polygon_returned shell g :
  new_Polygon shell = Returned g <->
  g = MkPolygon shell /\ length shell <> 1%nat /\ length shell <> 2%nat.
Proof.
  destruct shell as [|a [|b [|c shell]]]; simpl.
  - split; [intros [= <-]; auto | intros [-> _]; reflexivity].
  - split; [discriminate | intros (_ & H & _); now destruct H].
  - split; [discriminate | intros (_ & _ & H); now destruct H].
  - split; [intros [= <-]; auto | intros [-> _]; reflexivity].
Qed.

Lemma new_Polygon_raised shell e :
  new_Polygon shell = Raised e <->
  e = "ValueError" /\ (length shell = 1%nat \/ length shell = 2%nat).
Proof.
  destruct shell as [|a [|b [|c shell]]]; simpl.
  - split; [discriminate | intros [_ [|]]; discriminate].
  - split; [intros [= <-]; auto | intros [-> _]; reflexivity].
  - split; [intros [= <-]; auto | intros [-> _]; reflexivity].
  - split; [discriminate | intros [_ [|]]; discriminate].
Qed.

Lemma shapes_returned polygons shapes :
  comprehension (fun polygon => new_Polygon (revert polygon)) polygons
  = Returned shapes ->
  shapes = fmap (fun polygon => MkPolygon (revert polygon)) polygons.
Proof.
  intros H. apply comprehension_returned in H.
  induction H as [|poly g polygons shapes Hg _ IH]; [reflexivity|].
  apply new_Polygon_returned in Hg as [-> _]. simpl. now f_equal.
Qed.

Lemma remove_crossing_rows merged polygons :
  let df := with_geometry merged
              (fmap (fun polygon => MkPolygon (revert polygon)) polygons) in
  remove_crossing df (fmap (fun r => from_option bounds None (row_geometry r)) df)
  = zip_with final_row merged polygons.
Proof.
  unfold with_geometry, remove_crossing. simpl.
  revert polygons. induction merged as [|km merged IH]; intros [|poly polygons];
    try reflexivity.
  simpl. rewrite IH. f_equal.
  unfold final_row, crossing. simpl.
  destruct (exceeds _ (span_y _)), (exceeds _ (span_x _)); reflexivity.
Qed.

Section PrepareFacts.

Variable geo_to_h3 : num -> num -> nat -> result string.
Variable h3_to_geo_boundary : string -> result (list (num * num)).


(** What a run of [prepare] that returns has gone through. *)
Lemma prepare_returned df out df' :
  prepare geo_to_h3 h3_to_geo_boundary df = (Returned out, df') <->
  exists hexes polygons,
    comprehension (cell_of geo_to_h3) (features df) = Returned hexes /\
    has_value df = true /\
    comprehension h3_to_geo_boundary
      (fmap fst (merge_points hexes (features df))) = Returned polygons /\
    is_returned (comprehension (fun polygon => new_Polygon (revert polygon))
                               polygons) /\
    out = zip_with final_row (merge_points hexes (features df)) polygons /\
    df' = Frame (features df) true (Some hexes).
Proof.
  unfold prepare.
  destruct (comprehension (cell_of geo_to_h3) (features df)) as [hexes|e].
  - destruct (has_value df); simpl.
    + destruct (comprehension h3_to_geo_boundary _) as [polygons|e] eqn:Hb.
      * destruct (comprehension _ polygons) as [shapes|e] eqn:Hs.
        -- rewrite (shapes_returned _ _ Hs), remove_crossing_rows. split.
           ++ intros [= <- <-]. exists hexes, polygons. rewrite Hs. now repeat split.
           ++ intros (hexes' & polygons' & [= <-] & _ & Hb' & _ & -> & ->).
              rewrite Hb in Hb'. now injection Hb' as <-.
        -- split; [discriminate|].
           intros (hexes' & polygons' & [= <-] & _ & Hb' & Hs' & _).
           rewrite Hb in Hb'. injection Hb' as <-. now rewrite Hs in Hs'.
      * split; [discriminate|].
        intros (hexes' & polygons' & [= <-] & _ & Hb' & _). congruence.
    + split; [discriminate|]. intros (? & ? & _ & [=] & _).
  - split; [discriminate|]. intros (? & ? & [=] & _).
Qed.

Lemma zip_with_final_row_elem merged polygons r :
  Forall2 (fun k poly => h3_to_geo_boundary k = Returned poly)
          (fmap fst merged) polygons ->
  r ∈ zip_with final_row merged polygons <->
  exists k m poly, (k, m) ∈ merged /\ h3_to_geo_boundary k = Returned poly /\
                   r = final_row (k, m) poly.
Proof.
  revert polygons. induction merged as [|[k0 m0] merged IH]; intros polygons H.
  - inversion H; subst. simpl. split; [intros Hin; inversion Hin|].
    intros (k & m & poly & Hin & _). inversion Hin.
  - inversion H as [|? poly0 ? polygons0 H0 Hrest]; subst. simpl.
    rewrite elem_of_cons, (IH _ Hrest). split.
    + intros [->|(k & m & poly & Hin & Hb & ->)].
      * exists k0, m0, poly0. split; [left|auto].
      * exists k, m, poly. split; [now right|auto].
    + intros (k & m & poly & Hin & Hb & ->).
      apply elem_of_cons in Hin as [[= -> ->]|Hin].
      * left. simpl in H0. congruence.
      * right. eauto 10.
Qed.

(** The rows of the prepared frame, in terms of the input alone: one row
    for every cell that holds a point of the input. *)
Lemma prepare_rows df out df' :
  prepare geo_to_h3 h3_to_geo_boundary df = (Returned out, df') ->
  forall r, r ∈ out <->
    exists k poly,
      cell_values geo_to_h3 k (features df) <> [] /\
      h3_to_geo_boundary k = Returned poly /\
      r = final_row (k, arithmetic_mean (cell_values geo_to_h3 k (features df))) poly.
Proof.
  intros (hexes & polygons & Hh & _ & Hb & _ & -> & _)%prepare_returned r.
  apply comprehension_returned in Hb.
  rewrite (zip_with_final_row_elem _ _ _ Hb). split.
  - intros (k & m & poly & Hin & Hk & ->).
    apply (merge_points_elem _ _ _ _ _ Hh) in Hin as [Hne ->]. eauto.
  - intros (k & poly & Hne & Hk & ->).
    exists k, (arithmetic_mean (cell_values geo_to_h3 k (features df))), poly.
    split; [|auto]. apply (merge_points_elem _ _ _ _ _ Hh). auto.
Qed.

Lemma final_row_hex km poly k :
  row_hex (final_row km poly) = Some k ->
  fst km = k /\ crossing (MkPolygon (revert poly)) = false.
Proof.
  unfold final_row. destruct (crossing _); simpl; [discriminate|].
  now intros [= <-].
Qed.

Lemma prepare_length df out df' :
  prepare geo_to_h3 h3_to_geo_boundary df = (Returned out, df') ->
  exists hexes, hex df' = Some hexes /\
                length out = length (merge_points hexes (features df)).
Proof.
  intros (hexes & polygons & Hh & Hv & Hb & Hs & -> & ->)%prepare_returned.
  exists hexes. split; [reflexivity|].
  apply comprehension_length in Hb. rewrite length_fmap in Hb.
  rewrite length_zip_with. lia.
Qed.

End PrepareFacts.

(** ** The claims about prepare *)

Section PrepareClaims.

Variable geo_to_h3 : num -> num -> nat -> result string.
Variable h3_to_geo_boundary : string -> result (list (num * num)).


Lemma cell_keys_sublist merged polygons :
  cell_keys (zip_with final_row merged polygons) `sublist_of` fmap fst merged.
Proof.
  unfold cell_keys. revert polygons.
  induction merged as [|km merged IH]; intros [|poly polygons]; simpl;
    try apply sublist_nil_l.
  unfold final_row at 1. destruct (crossing _); simpl.
  - apply sublist_cons, IH.
  - apply sublist_skip, IH.
Qed.

Lemma row_of_key df out df' r k :
  prepare geo_to_h3 h3_to_geo_boundary df = (Returned out, df') ->
  r ∈ out -> row_hex r = Some k ->
  exists poly,
    cell_values geo_to_h3 k (features df) <> [] /\
    h3_to_geo_boundary k = Returned poly /\
    crossing (MkPolygon (revert poly)) = false /\
    r = Row (Some k) (Some (arithmetic_mean (cell_values geo_to_h3 k (features df))))
            (Some (MkPolygon (revert poly))).
Proof.
  intros Hp Hin Hk.
  apply (prepare_rows _ _ _ _ _ Hp) in Hin as (k' & poly & Hne & Hb & ->).
  apply final_row_hex in Hk as [Hk Hc]. simpl in Hk. subst k'.
  exists poly. repeat split; try assumption.
  unfold final_row. now rewrite Hc.
Qed.

(** C1, as the code has it.  Every cell row of the frame returned by
    [prepare] holds, as its value, the mean in doubles of the values of
    exactly those input features that the indexer files under the key of
    the row (there is at least one), taken in the order of the input:
    the compensated sum of these values, a NaN skipped, over the number of
    values added.  The value of a cell depends on the input only through
    the values of the cell and their order: whenever another input files
    the same values in the same order under the key, its row for the key
    has the same value. *)
Theorem prepare_mean_value df out df' r k :
  prepare geo_to_h3 h3_to_geo_boundary df = (Returned out, df') ->
  r ∈ out -> row_hex r = Some k ->
  cell_values geo_to_h3 k (features df) <> [] /\
  row_value r = Some (arithmetic_mean (cell_values geo_to_h3 k (features df))) /\
  forall df2 out2 df2' r2,
    prepare geo_to_h3 h3_to_geo_boundary df2 = (Returned out2, df2') ->
    r2 ∈ out2 -> row_hex r2 = Some k ->
    cell_values geo_to_h3 k (features df2) = cell_values geo_to_h3 k (features df) ->
    row_value r2 = row_value r.
Proof.
  intros Hp Hin Hk.
  destruct (row_of_key _ _ _ _ _ Hp Hin Hk) as (poly & Hne & _ & _ & ->).
  repeat split; [assumption|].
  intros df2 out2 df2' r2 Hp2 Hin2 Hk2 Hsame.
  destruct (row_of_key _ _ _ _ _ Hp2 Hin2 Hk2) as (poly2 & _ & _ & _ & ->).
  simpl. now rewrite Hsame.
Qed.


Lemma final_rows_hex_geometry (m1 m2 : list (string * float)) polygons :
  fmap fst m1 = fmap fst m2 ->
  fmap row_hex (zip_with final_row m1 polygons)
  = fmap row_hex (zip_with final_row m2 polygons) /\
  fmap row_geometry (zip_with final_row m1 polygons)
  = fmap row_geometry (zip_with final_row m2 polygons).
Proof.
  revert m2 polygons.
  induction m1 as [|[k1 v1] m1 IH]; intros [|[k2 v2] m2] polygons Hk;
    try discriminate; [now split|].
  destruct polygons as [|poly polygons]; [now split|].
  simpl in Hk. injection Hk as <- Hk. destruct (IH m2 polygons Hk) as [Hh Hg].
  cbn [zip_with]. rewrite !fmap_cons, Hh, Hg. unfold final_row. simpl.
  destruct (crossing _); now split.
Qed.

(** C6, as the code has it.  If [prepare] returns on a frame, it returns on
    every frame with the same columns whose features are a permutation of
    the first one's.  The two prepared frames have the same keys and the
    same polygons, row by row, and under every key the same values were
    merged, up to their order.  The frames are the same, and so are their
    (cell key, mean value) pairs, when no cell has a mean that the
    reordering changes; the mean of a cell is taken in doubles and may
    depend on the order of its values. *)
Theorem prepare_Permutation df1 df2 out1 df1' :
  features df1 ≡ₚ features df2 -> has_value df2 = has_value df1 ->
  prepare geo_to_h3 h3_to_geo_boundary df1 = (Returned out1, df1') ->
  exists out2 df2',
    prepare geo_to_h3 h3_to_geo_boundary df2 = (Returned out2, df2') /\
    fmap row_hex out2 = fmap row_hex out1 /\
    fmap row_geometry out2 = fmap row_geometry out1 /\
    (forall k, cell_values geo_to_h3 k (features df2)
               ≡ₚ cell_values geo_to_h3 k (features df1)) /\
    ((forall k, (exists p, p ∈ features df1 /\ in_cell geo_to_h3 k p) ->
                arithmetic_mean (cell_values geo_to_h3 k (features df2))
                = arithmetic_mean (cell_values geo_to_h3 k (features df1))) ->
     out2 = out1 /\
     forall km, km ∈ cell_means out2 <-> km ∈ cell_means out1).
Proof.
  intros Hperm Hcol (hexes & polygons & Hh & Hv & Hb & Hs & -> & ->)%prepare_returned.
  destruct (comprehension_Permutation (cell_of geo_to_h3) _ _ _ Hperm Hh)
    as [hexes2 Hh2].
  pose proof (merge_points_keys_Permutation geo_to_h3 _ _ _ _ Hperm Hh Hh2) as Hk.
  exists (zip_with final_row (merge_points hexes2 (features df2)) polygons),
         (Frame (features df2) true (Some hexes2)).
  split; [|split; [|split; [|split]]].
  - apply prepare_returned. exists hexes2, polygons.
    rewrite <- Hk, Hcol. auto 10.
  - now apply final_rows_hex_geometry.
  - now apply final_rows_hex_geometry.
  - intros k. symmetry. now apply cell_values_Permutation.
  - intros Hm.
    rewrite (merge_points_ext geo_to_h3 _ _ _ _ Hperm Hh Hh2 Hm).
    split; [reflexivity | tauto].
Qed.

End PrepareClaims.

(** ** The synthetic grid at work *)

Lemma toy_prepare_eq :
  prepare toy_geo_to_h3 toy_boundary toy_frame
  = (Returned toy_prepared,
     Frame (features toy_frame) true (Some ["north"; "edge"; "north"; "south"])).
Proof. vm_compute. reflexivity. Qed.

Lemma toy_prepared_hex :
  fmap row_hex toy_prepared = [None; Some "north"; Some "south"].
Proof. vm_compute. reflexivity. Qed.

Example mean_of_10_and_20 : arithmetic_mean [10; 20]%float = 15%float.
Proof. vm_compute. reflexivity. Qed.

Lemma elem_of_lookup_Some {A} (l : list A) i x : l !! i = Some x -> x ∈ l.
Proof. intros H. apply list_elem_of_lookup. eauto. Qed.

Lemma comprehension_returned_elem {A B} (f : A -> result B) l ys x :
  comprehension f l = Returned ys -> x ∈ l -> is_returned (f x).
Proof.
  intros H Hin. apply comprehension_returned in H.
  induction H as [|x0 y l0 ys0 Hx _ IH]; [inversion Hin|].
  apply elem_of_cons in Hin as [->|Hin]; [now rewrite Hx | auto].
Qed.

Lemma within_or_spans g : within_180 g \/ spans_over_180 g.
Proof.
  destruct (crossing g) eqn:Hc.
  - right. now apply crossing_spans.
  - left. now apply crossing_within.
Qed.

Section PrepareOutcome.

Variable geo_to_h3 : num -> num -> nat -> result string.
Variable h3_to_geo_boundary : string -> result (list (num * num)).


(** C2, as the code has it.  For every cell that holds a feature of the
    input, with [poly] its boundary: if the bounding box of the
    reconstructed polygon is more than 180 degrees wide or high, the row
    of the cell is masked, not dropped: a row of nulls is in the frame
    and no row carries the key of the cell; otherwise the row of the cell
    is in the frame with its key, its mean value and its polygon.  The
    frame always keeps one row for every cell that holds a feature. *)
Theorem prepare_masks_crossing df out df' k poly :
  prepare geo_to_h3 h3_to_geo_boundary df = (Returned out, df') ->
  (exists p, p ∈ features df /\ in_cell geo_to_h3 k p) ->
  h3_to_geo_boundary k = Returned poly ->
  let g := MkPolygon (revert poly) in
  (spans_over_180 g -> ~ (k ∈ cell_keys out) /\ null_row ∈ out) /\
  (within_180 g ->
     Row (Some k)
         (Some (arithmetic_mean (cell_values geo_to_h3 k (features df))))
         (Some g)
     ∈ out) /\
  (forall hexes, hex df' = Some hexes ->
     length out = length (merge_points hexes (features df))).
Proof.
  intros Hp Hocc Hb g.
  apply cell_values_nonempty in Hocc.
  assert (final_row (k, arithmetic_mean (cell_values geo_to_h3 k (features df)))
                    poly ∈ out)
    as Hrow by (apply (prepare_rows _ _ _ _ _ Hp); eauto).
  split; [|split].
  - intros Hs. apply crossing_spans in Hs. split.
    + unfold cell_keys. intros (r & Hin & Hk)%list_elem_of_omap.
      destruct (row_of_key _ _ _ _ _ _ _ Hp Hin Hk) as (poly' & _ & Hb' & Hc & _).
      rewrite Hb in Hb'. injection Hb' as <-. fold g in Hc. congruence.
    + unfold final_row in Hrow. fold g in Hrow. now rewrite Hs in Hrow.
  - intros Hw. apply crossing_within in Hw.
    unfold final_row in Hrow. fold g in Hrow. now rewrite Hw in Hrow.
  - intros hexes Hhex.
    destruct (prepare_length _ _ _ _ _ Hp) as (hexes' & Hh' & Hlen).
    rewrite Hh' in Hhex. now injection Hhex as <-.
Qed.

End PrepareOutcome.

Section PrepareErrors.

Variable geo_to_h3 : num -> num -> nat -> result string.
Variable h3_to_geo_boundary : string -> result (list (num * num)).


(** C3, as the code has it.  [prepare] checks no range and has no error
    of its own.  Where the points lie matters only through the keys that
    the indexer returns for them: two frames with the same columns whose
    features are indexed to the same keys and carry the same values have
    the same outcome, whatever their coordinates.  When indexing some
    feature raises, [prepare] raises the exception of such a call, that
    of the first feature in row order on which the indexer raises, passed
    on unchanged; it gives no frame, and the frame of the caller is left
    as it was. *)
Theorem prepare_fails_with_h3 df :
  (forall df2 hexes,
     comprehension (cell_of geo_to_h3) (features df) = Returned hexes ->
     comprehension (cell_of geo_to_h3) (features df2) = Returned hexes ->
     fmap value (features df2) = fmap value (features df) ->
     has_value df2 = has_value df ->
     fst (prepare geo_to_h3 h3_to_geo_boundary df2)
     = fst (prepare geo_to_h3 h3_to_geo_boundary df)) /\
  ((exists p, p ∈ features df /\ ~ is_returned (cell_of geo_to_h3 p)) ->
   exists l1 p l2 e,
     features df = l1 ++ p :: l2 /\
     Forall (fun x => is_returned (cell_of geo_to_h3 x)) l1 /\
     cell_of geo_to_h3 p = Raised e /\
     prepare geo_to_h3 h3_to_geo_boundary df = (Raised e, df)).
Proof.
  split.
  - intros df2 hexes Hh Hh2 Hval Hcol. unfold prepare.
    rewrite Hh, Hh2, Hcol. unfold merge_points. rewrite Hval.
    destruct (has_value df); simpl; [|reflexivity].
    destruct (comprehension h3_to_geo_boundary _) as [polygons|e]; [|reflexivity].
    destruct (comprehension _ polygons); reflexivity.
  - intros (p & Hin & Hbad).
    destruct (comprehension (cell_of geo_to_h3) (features df)) as [hexes|e] eqn:Hh.
    + exfalso. apply Hbad. eapply comprehension_returned_elem; eauto.
    + pose proof Hh as Hh'.
      apply comprehension_raised in Hh' as (l1 & x & l2 & ys & Hl & Hok & Hx).
      exists l1, x, l2, e. repeat split; try assumption.
      * clear Hl. induction Hok as [|a y l1 ys Ha _ IH]; constructor; [|exact IH].
        now rewrite Ha.
      * unfold prepare. now rewrite Hh.
Qed.

(** C4, as the code has it.  [prepare] assigns the column "hex" into the
    frame it is given: once every feature is indexed, the caller's frame
    holds the keys of its features in that column; its features are left
    as they were.  When the indexing fails, the frame is left whole. *)
Theorem prepare_assigns_hex df :
  features (snd (prepare geo_to_h3 h3_to_geo_boundary df)) = features df /\
  match comprehension (cell_of geo_to_h3) (features df) with
  | Returned hexes =>
      hex (snd (prepare geo_to_h3 h3_to_geo_boundary df)) = Some hexes /\
      Forall2 (fun p h => cell_of geo_to_h3 p = Returned h) (features df) hexes
  | Raised _ => snd (prepare geo_to_h3 h3_to_geo_boundary df) = df
  end.
Proof.
  unfold prepare.
  destruct (comprehension (cell_of geo_to_h3) (features df)) as [hexes|e] eqn:Hh.
  - apply comprehension_returned in Hh.
    destruct (has_value df); simpl; [|auto].
    destruct (comprehension h3_to_geo_boundary _) as [polygons|e]; simpl; [|auto].
    destruct (comprehension _ polygons); simpl; auto.
  - simpl. auto.
Qed.

(** C7.  [revert] keeps the number and the order of the vertices and
    swaps the two coordinates of each; and the geometry of every cell row
    that [prepare] returns is the polygon over the reverted boundary that
    h3 gives for the key of the row. *)
Theorem revert_swaps_each_vertex :
  (forall polygon : list (num * num),
     length (revert polygon) = length polygon /\
     forall i, revert polygon !! i = (fun v => (snd v, fst v)) <$> polygon !! i) /\
  (forall df out df' r k,
     prepare geo_to_h3 h3_to_geo_boundary df = (Returned out, df') ->
     r ∈ out -> row_hex r = Some k ->
     exists boundary,
       h3_to_geo_boundary k = Returned boundary /\
       row_geometry r = Some (MkPolygon (revert boundary))).
Proof.
  split.
  - intros polygon. unfold revert. split; [apply length_fmap|].
    intros i. rewrite list_lookup_fmap.
    destruct (polygon !! i) as [[lat lon]|]; reflexivity.
  - intros df out df' r k Hp Hin Hk.
    destruct (row_of_key _ _ _ _ _ _ _ Hp Hin Hk) as (poly & _ & Hb & _ & ->).
    exists poly. auto.
Qed.

End PrepareErrors.

(** ** The claims about prepare, on the synthetic grid *)

Lemma prepare_mean_value_witness :
  let r := default null_row (toy_prepared !! 1%nat) in
  r ∈ toy_prepared /\ row_hex r = Some "north" /\
  row_value r
  = Some (arithmetic_mean (cell_values toy_geo_to_h3 "north" (features toy_frame))).
Proof.
  intros r.
  assert (Hin : r ∈ toy_prepared)
    by (apply (elem_of_lookup_Some _ 1%nat); vm_compute; reflexivity).
  assert (Hk : row_hex r = Some "north") by (vm_compute; reflexivity).
  split; [exact Hin|]. split; [exact Hk|].
  exact (proj1 (proj2 (prepare_mean_value _ _ _ _ _ _ _ toy_prepare_eq Hin Hk))).
Defined.

Example toy_north_mean :
  arithmetic_mean (cell_values toy_geo_to_h3 "north" (features toy_frame))
  = 15%float.
Proof. vm_compute. reflexivity. Qed.

(** The claim C1 as it is worded fails: the mean of a cell is not
    independent of the order of the input.  The same three points of the
    cell north, with the values 1e100, 3 and -1e100, get the mean 0 in
    this order and the mean 1 when the point with the value 3 comes
    last. *)
Lemma mean_depends_on_order :
  features cancelling_frame ≡ₚ features cancelling_frame_reordered /\
  exists out1 out2 df1' df2',
    prepare toy_geo_to_h3 toy_boundary cancelling_frame = (Returned out1, df1') /\
    prepare toy_geo_to_h3 toy_boundary cancelling_frame_reordered
    = (Returned out2, df2') /\
    fmap row_hex out1 = [Some "north"] /\
    fmap row_hex out2 = [Some "north"] /\
    fmap row_value out1 = [Some 0%float] /\
    fmap row_value out2 = [Some 1%float] /\
    fmap row_value out1 <> fmap row_value out2.
Proof.
  split; [apply perm_skip, perm_swap|].
  eexists _, _, _, _.
  split; [vm_compute; reflexivity|].
  split; [vm_compute; reflexivity|].
  repeat split; try (vm_compute; reflexivity).
  vm_compute. discriminate.
Qed.

Lemma edge_in_toy_frame :
  exists p, p ∈ features toy_frame /\ in_cell toy_geo_to_h3 "edge" p.
Proof.
  exists (Feature (q 175) (q 0) 7). split.
  - apply (elem_of_lookup_Some _ 1%nat). reflexivity.
  - vm_compute. reflexivity.
Qed.

Lemma north_in_toy_frame :
  exists p, p ∈ features toy_frame /\ in_cell toy_geo_to_h3 "north" p.
Proof.
  exists (Feature (q 1) (q 2) 10). split.
  - apply (elem_of_lookup_Some _ 0%nat). reflexivity.
  - vm_compute. reflexivity.
Qed.

Lemma edge_spans_over_180 :
  spans_over_180
    (MkPolygon (revert [(q (-5), q 175); (q 5, q 175);
                        (q 5, q (-175)); (q (-5), q (-175))])).
Proof.
  exists (Box (q (-175)) (q (-5)) (q 175) (q 5)). split; [reflexivity|].
  left. apply (bool_decide_unpack _). vm_compute. exact I.
Qed.

Lemma north_within_180 :
  within_180
    (MkPolygon (revert [(q 0, q (-5)); (q 10, q (-5)); (q 10, q 5); (q 0, q 5)])).
Proof. apply crossing_within. vm_compute. reflexivity. Qed.

(** The claim C2 as it is worded fails: the cell "edge", drawn across the
    antimeridian, keeps a row in the frame that [prepare] returns.  The
    frame has three rows for the three cells that hold a feature, the first
    of them all nulls; its rows are not all cells. *)
Lemma crossing_cell_keeps_its_row :
  exists out df',
    prepare toy_geo_to_h3 toy_boundary toy_frame = (Returned out, df') /\
    length out = 3%nat /\
    out !! 0%nat = Some null_row /\
    ~ (forall r, r ∈ out -> exists k, row_hex r = Some k).
Proof.
  eexists _, _. split; [exact toy_prepare_eq|].
  split; [vm_compute; reflexivity|].
  split; [vm_compute; reflexivity|].
  intros H. destruct (H null_row) as [k Hk]; [|discriminate].
  apply (elem_of_lookup_Some _ 0%nat). vm_compute. reflexivity.
Qed.

Lemma prepare_masks_crossing_witness :
  (~ ("edge" ∈ cell_keys toy_prepared) /\ null_row ∈ toy_prepared) /\
  Row (Some "north")
      (Some (arithmetic_mean (cell_values toy_geo_to_h3 "north" (features toy_frame))))
      (Some (MkPolygon (revert [(q 0, q (-5)); (q 10, q (-5));
                                (q 10, q 5); (q 0, q 5)])))
  ∈ toy_prepared.
Proof.
  split.
  - exact (proj1 (prepare_masks_crossing _ _ _ _ _ "edge" _
                    toy_prepare_eq edge_in_toy_frame eq_refl) edge_spans_over_180).
  - exact (proj1 (proj2 (prepare_masks_crossing _ _ _ _ _ "north" _
                           toy_prepare_eq north_in_toy_frame eq_refl))
                 north_within_180).
Defined.

Lemma polar_point_out_of_range :
  exists p, p ∈ features polar_frame /\ out_of_range p.
Proof.
  exists (Feature (q 0) (q 91) 1). split; [left|].
  left. simpl. intros [_ H]. vm_compute in H. now apply H.
Qed.

(** The claim C3 as it is worded fails: a frame with a point at latitude 91
    is prepared like any other; nothing is raised. *)
Lemma out_of_range_point_is_prepared :
  (exists p, p ∈ features polar_frame /\ out_of_range p) /\
  exists out,
    fst (prepare toy_geo_to_h3 toy_boundary polar_frame) = Returned out /\
    fmap row_hex out = [Some "north"].
Proof.
  split; [exact polar_point_out_of_range|].
  eexists. split; vm_compute; reflexivity.
Qed.

Lemma prepare_fails_with_h3_witness :
  fst (prepare toy_geo_to_h3 toy_boundary polar_frame)
  = fst (prepare toy_geo_to_h3 toy_boundary temperate_frame) /\
  prepare strict_geo_to_h3 toy_boundary polar_frame
  = (Raised "ValueError", polar_frame).
Proof.
  split.
  - apply (proj1 (prepare_fails_with_h3 toy_geo_to_h3 toy_boundary temperate_frame)
                 polar_frame ["north"]); vm_compute; reflexivity.
  - destruct (proj2 (prepare_fails_with_h3 strict_geo_to_h3 toy_boundary
                       polar_frame))
      as (l1 & p & l2 & e & Hf & _ & Hp & Hrun).
    + exists (Feature (q 0) (q 91) 1). split; [left|].
      vm_compute. intros [].
    + destruct l1 as [|a l1]; simpl in Hf.
      * injection Hf as <- <-. vm_compute in Hp. injection Hp as <-. exact Hrun.
      * injection Hf as _ Hf. destruct l1; discriminate.
Defined.

(** The claim C4 as it is worded fails: after the call the caller's frame
    has a column "hex" that it did not have. *)
Lemma prepare_changes_its_input :
  hex toy_frame = None /\
  hex (snd (prepare toy_geo_to_h3 toy_boundary toy_frame))
  = Some ["north"; "edge"; "north"; "south"] /\
  snd (prepare toy_geo_to_h3 toy_boundary toy_frame) <> toy_frame.
Proof.
  rewrite toy_prepare_eq. simpl. repeat split. discriminate.
Qed.


(** The claim C6 as it is worded fails: the three points of the cell north
    with the values 0.1, 0.7 and 0.3 give another (cell key, mean value)
    pair when the last two change places. *)
Lemma permuted_input_changes_means :
  features tenths_frame ≡ₚ features tenths_frame_reordered /\
  exists out1 out2 df1' df2',
    prepare toy_geo_to_h3 toy_boundary tenths_frame = (Returned out1, df1') /\
    prepare toy_geo_to_h3 toy_boundary tenths_frame_reordered
    = (Returned out2, df2') /\
    cell_means out1 = [("north", 0.36666666666666664%float)] /\
    cell_means out2 = [("north", 0.3666666666666667%float)] /\
    ~ (forall km, km ∈ cell_means out2 <-> km ∈ cell_means out1).
Proof.
  split; [apply perm_skip, perm_swap|].
  eexists _, _, _, _.
  split; [vm_compute; reflexivity|].
  split; [vm_compute; reflexivity|].
  split; [vm_compute; reflexivity|].
  split; [vm_compute; reflexivity|].
  intros H.
  pose proof (proj1 (H ("north", 0.3666666666666667%float))) as Hin.
  vm_compute in Hin.
  assert (("north", 0.3666666666666667%float)
          ∈ [("north", 0.36666666666666664%float)]) as Hbad
    by (apply Hin; left).
  apply list_elem_of_singleton in Hbad. discriminate.
Qed.

Lemma prepare_Permutation_witness :
  exists out2 df2',
    prepare toy_geo_to_h3 toy_boundary
            (Frame (reverse (features toy_frame)) true None)
    = (Returned out2, df2') /\
    out2 = toy_prepared /\
    forall km, km ∈ cell_means out2 <-> km ∈ cell_means toy_prepared.
Proof.
  destruct (prepare_Permutation toy_geo_to_h3 toy_boundary toy_frame
              (Frame (reverse (features toy_frame)) true None) _ _
              (symmetry (reverse_Permutation _)) eq_refl toy_prepare_eq)
    as (out2 & df2' & Hp & _ & _ & _ & Hsame).
  exists out2, df2'. split; [exact Hp|].
  apply Hsame. intros k (p & Hin & Hk).
  unfold toy_frame, features in Hin.
  repeat (apply elem_of_cons in Hin as [->|Hin]);
    try (inversion Hin);
    vm_compute in Hk; injection Hk as <-; vm_compute; reflexivity.
Defined.

Lemma revert_swaps_each_vertex_witness :
  revert [(q 1, q 2); (q 3, q 4); (q 5, q 6)] !! 1%nat = Some (q 4, q 3) /\
  exists boundary,
    toy_boundary "north" = Returned boundary /\
    row_geometry (default null_row (toy_prepared !! 1%nat))
    = Some (MkPolygon (revert boundary)).
Proof.
  destruct (revert_swaps_each_vertex toy_geo_to_h3 toy_boundary) as [Hrev Hprep].
  split.
  - rewrite (proj2 (Hrev _)). reflexivity.
  - apply (Hprep toy_frame toy_prepared _ _ "north" toy_prepare_eq).
    + apply (elem_of_lookup_Some _ 1%nat). vm_compute. reflexivity.
    + vm_compute. reflexivity.
Defined.


(** ** Days *)

Lemma is_leap_spec y :
  is_leap y = true <->
  (y mod 4 = 0 /\ (y mod 100 <> 0 \/ y mod 400 = 0))%Z.
Proof.
  unfold is_leap.
  rewrite andb_true_iff, orb_true_iff, negb_true_iff, !Z.eqb_eq, Z.eqb_neq.
  reflexivity.
Qed.

Lemma days_before_next_year y :
  days_before_year (y + 1)
  = (days_before_year y + 365 + (if is_leap y then 1 else 0))%Z.
Proof.
  unfold days_before_year. cbv zeta.
  replace (y + 1 - 1)%Z with y by lia.
  destruct (is_leap y) eqn:Hl.
  - apply is_leap_spec in Hl. Z.div_mod_to_equations. lia.
  - assert (~ (y mod 4 = 0 /\ (y mod 100 <> 0 \/ y mod 400 = 0))%Z) as Hn.
    { rewrite <- is_leap_spec. congruence. }
    Z.div_mod_to_equations. lia.
Qed.

Lemma days_before_next_month y m :
  (1 <= m < 12)%Z ->
  days_before_month y (m + 1) = (days_before_month y m + days_in_month y m)%Z.
Proof.
  intros Hm.
  assert (m = 1 \/ m = 2 \/ m = 3 \/ m = 4 \/ m = 5 \/ m = 6 \/ m = 7 \/ m = 8
          \/ m = 9 \/ m = 10 \/ m = 11)%Z as Hcases by lia.
  unfold days_before_month, days_in_month.
  repeat (destruct Hcases as [->|Hcases]); try subst m; simpl;
    destruct (is_leap y); reflexivity.
Qed.

(** The day after: its ordinal is one more, and it is a date again. *)
Lemma next_date_spec y m d y' m' d' :
  valid_date y m d -> next_date y m d = Returned (y', m', d') ->
  (days_before_year y' + days_before_month y' m' + d'
   = days_before_year y + days_before_month y m + d + 1)%Z /\
  valid_date y' m' d'.
Proof.
  unfold valid_date, next_date. intros (Hy & Hm & Hd).
  destruct (Z.ltb_spec d (days_in_month y m)) as [Hlt|Hge].
  - intros [= <- <- <-]. split; lia.
  - destruct (Z.ltb_spec m 12) as [Hm12|Hm12].
    + intros [= <- <- <-]. rewrite days_before_next_month by lia.
      split; [lia|]. split; [lia|]. split; [lia|].
      unfold days_in_month. repeat case_match; lia.
    + destruct (Z.ltb_spec y 9999) as [Hy9|Hy9]; [|discriminate].
      intros [= <- <- <-]. assert (m = 12)%Z as -> by lia.
      rewrite days_before_next_year.
      unfold days_before_month, days_in_month in *. simpl in *.
      destruct (is_leap y), (is_leap (y + 1)); split; lia.
Qed.

Lemma next_date_raised y m d e :
  valid_date y m d -> next_date y m d = Raised e ->
  (y = 9999 /\ m = 12 /\ d = 31)%Z /\ e = "OverflowError".
Proof.
  unfold valid_date, next_date. intros (Hy & Hm & Hd).
  destruct (Z.ltb_spec d (days_in_month y m)) as [Hlt|Hge]; [discriminate|].
  destruct (Z.ltb_spec m 12) as [Hm12|Hm12]; [discriminate|].
  destruct (Z.ltb_spec y 9999) as [Hy9|Hy9]; [discriminate|].
  intros [= <-]. assert (m = 12)%Z as -> by lia.
  unfold days_in_month in *. simpl in *. split; [lia | reflexivity].
Qed.

Lemma add_one_day_spec day next :
  valid_day day -> add_one_day day = Returned next ->
  toordinal next = (toordinal day + 1)%Z /\
  time_of_day next = time_of_day day /\
  valid_day next.
Proof.
  destruct day as [y m d|y m d hh mm ss us]; simpl.
  - intros Hv. destruct (next_date y m d) as [[[y' m'] d']|e] eqn:Hn; [|discriminate].
    simpl. intros [= <-]. destruct (next_date_spec _ _ _ _ _ _ Hv Hn) as [Ho Hv'].
    simpl. auto.
  - intros [Hv Ht].
    destruct (next_date y m d) as [[[y' m'] d']|e] eqn:Hn; [|discriminate].
    simpl. intros [= <-]. destruct (next_date_spec _ _ _ _ _ _ Hv Hn) as [Ho Hv'].
    simpl. auto.
Qed.

Lemma add_one_day_raised day e :
  valid_day day -> add_one_day day = Raised e ->
  toordinal day = 3652059%Z /\ e = "OverflowError".
Proof.
  destruct day as [y m d|y m d hh mm ss us]; simpl.
  - intros Hv. destruct (next_date y m d) as [[[y' m'] d']|e'] eqn:Hn; [discriminate|].
    simpl. intros [= <-].
    destruct (next_date_raised _ _ _ _ Hv Hn) as [(-> & -> & ->) ->]. auto.
  - intros [Hv _].
    destruct (next_date y m d) as [[[y' m'] d']|e'] eqn:Hn; [discriminate|].
    simpl. intros [= <-].
    destruct (next_date_raised _ _ _ _ Hv Hn) as [(-> & -> & ->) ->]. auto.
Qed.

(** ** Days in writing *)

Lemma digit_value n : (Z.of_N (N_of_ascii (digit n)) - 48 = n mod 10)%Z.
Proof.
  unfold digit. pose proof (Z.mod_pos_bound n 10 eq_refl) as Hr.
  rewrite N_ascii_embedding by lia. lia.
Qed.

Lemma is_digit_digit n : is_digit (digit n) = true.
Proof.
  unfold is_digit. pose proof (digit_value n) as Hv.
  pose proof (Z.mod_pos_bound n 10 eq_refl) as Hr.
  apply andb_true_iff. split; apply N.leb_le; lia.
Qed.

Lemma decimal_value_app s1 s2 :
  decimal_value (s1 +:+ s2)
  = fold_left (fun acc c => (10 * acc + (Z.of_N (N_of_ascii c) - 48))%Z)
              (list_ascii_of_string s2) (decimal_value s1).
Proof.
  unfold decimal_value. generalize 0%Z.
  induction s1 as [|c s1 IH]; intros acc; simpl; [reflexivity | apply IH].
Qed.

(** [zfill] writes the number it is given. *)
Lemma decimal_value_zfill w n :
  (0 <= n < 10 ^ Z.of_nat w)%Z -> decimal_value (zfill w n) = n.
Proof.
  revert n. induction w as [|w IH]; intros n Hn.
  - simpl in *. unfold decimal_value. simpl. lia.
  - assert (0 <= n / 10 < 10 ^ Z.of_nat w)%Z as Hq.
    { rewrite Nat2Z.inj_succ, Z.pow_succ_r in Hn by lia.
      split; [apply Z.div_pos; lia | apply Z.div_lt_upper_bound; lia]. }
    simpl. rewrite decimal_value_app, (IH _ Hq). simpl. rewrite digit_value.
    pose proof (Z.div_mod n 10). lia.
Qed.

Lemma matches_app p1 p2 s1 s2 :
  matches p1 s1 = true -> matches p2 s2 = true ->
  matches (p1 +:+ p2) (s1 +:+ s2) = true.
Proof.
  revert s1. induction p1 as [|p p1 IH]; intros [|c s1]; simpl; try discriminate.
  - auto.
  - intros [H1 H2]%andb_true_iff Hp2. rewrite H1. simpl. auto.
Qed.

(** [zfill w] writes [w] digits. *)
Lemma matches_zfill w n : matches (digits_pattern w) (zfill w n) = true.
Proof.
  revert n. induction w as [|w IH]; intros n; [reflexivity|].
  simpl. apply matches_app; [apply IH|].
  simpl. now rewrite is_digit_digit.
Qed.

(** One piece of a pattern against one piece of a string. *)
Ltac shape_piece p s tac :=
  apply (matches_app p _ s _); [tac|].

Lemma isoformat_date_shape y m d :
  matches "dddd-dd-dd" (isoformat_date y m d) = true.
Proof.
  unfold isoformat_date.
  change "dddd-dd-dd"
    with (digits_pattern 4 +:+ "-" +:+ digits_pattern 2 +:+ "-" +:+ digits_pattern 2).
  shape_piece (digits_pattern 4) (zfill 4 y) ltac:(apply matches_zfill).
  shape_piece "-" "-" ltac:(reflexivity).
  shape_piece (digits_pattern 2) (zfill 2 m) ltac:(apply matches_zfill).
  shape_piece "-" "-" ltac:(reflexivity).
  apply matches_zfill.
Qed.

Lemma isoformat_time_shape hh mm ss p s :
  matches p s = true ->
  matches ("Tdd:dd:dd" +:+ p)
          ("T" +:+ zfill 2 hh +:+ ":" +:+ zfill 2 mm +:+ ":" +:+ zfill 2 ss +:+ s)
  = true.
Proof.
  intros Hp.
  change ("Tdd:dd:dd" +:+ p)
    with ("T" +:+ digits_pattern 2 +:+ ":" +:+ digits_pattern 2 +:+ ":"
          +:+ digits_pattern 2 +:+ p).
  shape_piece "T" "T" ltac:(reflexivity).
  shape_piece (digits_pattern 2) (zfill 2 hh) ltac:(apply matches_zfill).
  shape_piece ":" ":" ltac:(reflexivity).
  shape_piece (digits_pattern 2) (zfill 2 mm) ltac:(apply matches_zfill).
  shape_piece ":" ":" ltac:(reflexivity).
  shape_piece (digits_pattern 2) (zfill 2 ss) ltac:(apply matches_zfill).
  exact Hp.
Qed.

Lemma isoformat_shape day : matches (iso_shape day) (isoformat day) = true.
Proof.
  destruct day as [y m d|y m d hh mm ss us]; unfold isoformat, iso_shape.
  - apply isoformat_date_shape.
  - pose proof (isoformat_date_shape y m d) as Hd.
    destruct (us =? 0)%Z.
    + change "dddd-dd-ddTdd:dd:dd" with ("dddd-dd-dd" +:+ "Tdd:dd:dd" +:+ "").
      shape_piece "dddd-dd-dd" (isoformat_date y m d) ltac:(exact Hd).
      now apply isoformat_time_shape.
    + change "dddd-dd-ddTdd:dd:dd.dddddd"
        with ("dddd-dd-dd" +:+ "Tdd:dd:dd" +:+ "." +:+ digits_pattern 6).
      shape_piece "dddd-dd-dd" (isoformat_date y m d) ltac:(exact Hd).
      apply isoformat_time_shape.
      shape_piece "." "." ltac:(reflexivity).
      apply matches_zfill.
Qed.

Lemma add_one_day_shape day next :
  add_one_day day = Returned next -> iso_shape next = iso_shape day.
Proof.
  destruct day as [y m d|y m d hh mm ss us]; simpl;
    destruct (next_date y m d) as [[[y' m'] d']|e]; simpl; try discriminate;
    now intros [= <-].
Qed.

(** ** The claims about the cache and the service *)

Section ProgramClaims.

Variable geo_to_h3 : num -> num -> nat -> result string.
Variable h3_to_geo_boundary : string -> result (list (num * num)).
Variable file : Type.
Variable read_file : file -> result (list row).
Variable to_file : list row -> result file.
Variable remote : string -> result frame.

Lemma download_points_run url product day (w : world file) :
  download_points file remote url product day w =
  match add_one_day day with
  | Raised e => (Raised e, w)
  | Returned next =>
      (remote (request url product day next),
       World (files w) (calls w ++ [HttpGet (request url product day next)]))
  end.
Proof.
  unfold download_points, bind, lift, record.
  destruct (add_one_day day) as [next|e]; reflexivity.
Qed.

(** C9, as the code has it.  For a day that has a next day,
    [download_points] makes one call, a read of
    {url}/api/v2/{product}/geo.json?begin={day}&end={day+1}, and returns
    what the read gives.  Both days are written by [isoformat]: a day
    that is a date is written as an ISO 8601 date, dddd-dd-dd; a day that
    is a datetime as a date and time, dddd-dd-ddTdd:dd:dd, with six more
    digits for its microseconds if it has any.  The end is the next
    calendar day at the same time of day.  For the last day of year 9999 the
    sum overflows and no call is made. *)
Theorem download_points_request url product day (w : world file) :
  valid_day day ->
  match add_one_day day with
  | Returned next =>
      download_points file remote url product day w
      = (remote (request url product day next),
         World (files w) (calls w ++ [HttpGet (request url product day next)])) /\
      toordinal next = (toordinal day + 1)%Z /\
      time_of_day next = time_of_day day /\
      valid_day next /\
      matches (iso_shape day) (isoformat day) = true /\
      matches (iso_shape day) (isoformat next) = true
  | Raised e =>
      toordinal day = 3652059%Z /\
      download_points file remote url product day w = (Raised "OverflowError", w)
  end.
Proof.
  intros Hv. rewrite download_points_run.
  destruct (add_one_day day) as [next|e] eqn:Hn.
  - destruct (add_one_day_spec _ _ Hv Hn) as (Ho & Ht & Hv').
    repeat split; try assumption.
    + apply isoformat_shape.
    + rewrite <- (add_one_day_shape _ _ Hn). apply isoformat_shape.
  - destruct (add_one_day_raised _ _ Hv Hn) as [Ho ->]. auto.
Qed.

Lemma get_points_uncached_run url product day (w : world file) :
  get_points geo_to_h3 h3_to_geo_boundary file read_file to_file remote
             url product day false w =
  match add_one_day day with
  | Raised e => (Raised e, w)
  | Returned next =>
      let target := request url product day next in
      match remote target with
      | Raised e => (Raised e, World (files w) (calls w ++ [HttpGet target]))
      | Returned raw =>
          (fst (prepare geo_to_h3 h3_to_geo_boundary raw),
           World (files w) (calls w ++ [HttpGet target; Prepare raw]))
      end
  end.
Proof.
  unfold get_points, bind, ret. rewrite download_points_run.
  destruct (add_one_day day) as [next|e]; [|reflexivity]. simpl.
  destruct (remote _) as [raw|e]; [|reflexivity].
  unfold run_prepare, bind, record, lift, ret. simpl.
  rewrite <- app_assoc. simpl.
  destruct (fst (prepare geo_to_h3 h3_to_geo_boundary raw)); reflexivity.
Qed.

(** Every call of [cache_load] starts with an existence test, and every
    call of [cache_save] with a write: a run without these has called
    neither. *)
Lemma cache_load_recorded product day (w : world file) :
  exists rest,
    calls (snd (cache_load file read_file product day w))
    = calls w ++ PathExists (cache_filename product day) :: rest /\
    Forall (fun c => is_cache_call c = true) rest.
Proof.
  unfold cache_load, bind, ret, record, stored, lift. simpl.
  destruct (files w !! cache_filename product day) as [f|]; simpl.
  - destruct (read_file f); simpl; rewrite <- app_assoc; simpl;
      eexists; (split; [reflexivity | repeat constructor]).
  - exists []. split; [reflexivity | constructor].
Qed.

Lemma cache_save_recorded df product day (w : world file) :
  calls (snd (cache_save file to_file df product day w))
  = calls w ++ [ToFile (cache_filename product day)].
Proof.
  unfold cache_save, bind, record, lift, store. simpl.
  destruct (to_file df); reflexivity.
Qed.

(** C10.  With [cache] false, [get_points] is the download followed by
    [prepare]: it returns what [prepare] returns on the downloaded frame
    (or fails as the download or [prepare] fails), the files are left as
    they were, and the calls it makes are the read of the service and the
    call of [prepare]; none of them is an existence test, a read or a write
    of a cache file, which are all that [cache_load] and [cache_save] do. *)
Theorem get_points_without_cache url product day (w : world file) :
  let run := get_points geo_to_h3 h3_to_geo_boundary file read_file to_file remote
                        url product day false w in
  run = match add_one_day day with
        | Raised e => (Raised e, w)
        | Returned next =>
            let target := request url product day next in
            match remote target with
            | Raised e => (Raised e, World (files w) (calls w ++ [HttpGet target]))
            | Returned raw =>
                (fst (prepare geo_to_h3 h3_to_geo_boundary raw),
                 World (files w) (calls w ++ [HttpGet target; Prepare raw]))
            end
        end /\
  files (snd run) = files w /\
  exists made, calls (snd run) = calls w ++ made /\
               Forall (fun c => is_cache_call c = false) made.
Proof.
  intros run. subst run. rewrite get_points_uncached_run.
  split; [reflexivity|].
  destruct (add_one_day day) as [next|e]; simpl.
  - destruct (remote _) as [raw|e]; simpl.
    + split; [reflexivity|]. eexists. split; [reflexivity|].
      repeat constructor.
    + split; [reflexivity|]. eexists. split; [reflexivity|].
      repeat constructor.
  - split; [reflexivity|]. exists []. split; [now rewrite app_nil_r | constructor].
Qed.

(** C8.  With [cache] true, [get_points] first tests whether the file
    named cache-{product}-{day} exists.  If it does and reading it gives a
    frame, that frame is returned, after the test and the read alone: no
    download, no [prepare], no write.  If it does not, which is no error
    ([cache_load] returns None), and the download, [prepare] and the write
    go through, the prepared frame is returned, and it is stored under that
    name, after the test, the download, [prepare] and the write, in
    this order. *)
Theorem get_points_with_cache url product day (w : world file) :
  let fn := cache_filename product day in
  let run := get_points geo_to_h3 h3_to_geo_boundary file read_file to_file remote
                        url product day true w in
  (forall f df,
     files w !! fn = Some f -> read_file f = Returned df ->
     run = (Returned df, World (files w) (calls w ++ [PathExists fn; ReadCache fn]))) /\
  (files w !! fn = None ->
   cache_load file read_file product day w
   = (Returned None, World (files w) (calls w ++ [PathExists fn]))) /\
  (forall next raw df f,
     files w !! fn = None ->
     add_one_day day = Returned next ->
     remote (request url product day next) = Returned raw ->
     fst (prepare geo_to_h3 h3_to_geo_boundary raw) = Returned df ->
     to_file df = Returned f ->
     run = (Returned df,
            World (<[fn := f]> (files w))
                  (calls w ++ [PathExists fn; HttpGet (request url product day next);
                               Prepare raw; ToFile fn]))).
Proof.
  intros fn run. subst run. split; [|split].
  - intros f df Hf Hr.
    unfold get_points, cache_load, bind, ret, record, stored, lift. simpl.
    fold fn. rewrite Hf. simpl. rewrite Hr. simpl.
    now rewrite <- app_assoc.
  - intros Hf. unfold cache_load, bind, ret, record, stored. simpl.
    fold fn. now rewrite Hf.
  - intros next raw df f Hf Hn Hraw Hp Hw.
    unfold get_points, cache_load, bind, ret, record, stored. simpl.
    fold fn. rewrite Hf. rewrite download_points_run, Hn. simpl. rewrite Hraw.
    unfold run_prepare, cache_save, bind, ret, record, lift, store. simpl.
    rewrite Hp. simpl. fold fn. rewrite Hw. simpl.
    now rewrite <- !app_assoc.
Qed.

End ProgramClaims.

(** ** The claims about the cache and the service, at work *)

(** The claim C9 as it is worded fails: for the date that [__main__] passes,
    the request carries two dates, without a time of day. *)
Lemma request_for_a_date_has_no_time :
  download_points (list row) toy_remote
    "https://api.v2.emissions-api.org" "carbonmonoxide" (Date 2019 9 1) (World ∅ [])
  = (Returned toy_frame,
     World ∅ [HttpGet ("https://api.v2.emissions-api.org/api/v2/carbonmonoxide"
                       +:+ "/geo.json?begin=2019-09-01&end=2019-09-02")]) /\
  iso_date_time "2019-09-01" = false /\ iso_date_time "2019-09-02" = false /\
  iso_date "2019-09-01" = true /\ iso_date "2019-09-02" = true.
Proof. repeat split; vm_compute; reflexivity. Qed.

Lemma download_points_request_witness :
  download_points (list row) toy_remote
    "https://api.v2.emissions-api.org" "ozone" (DateTime 2020 2 28 0 0 0 0)
    (World ∅ [])
  = (Returned toy_frame,
     World ∅ [HttpGet ("https://api.v2.emissions-api.org/api/v2/ozone"
                       +:+ "/geo.json?begin=2020-02-28T00:00:00"
                       +:+ "&end=2020-02-29T00:00:00")]) /\
  toordinal (DateTime 2020 2 29 0 0 0 0)
  = (toordinal (DateTime 2020 2 28 0 0 0 0) + 1)%Z.
Proof.
  assert (valid_day (DateTime 2020 2 28 0 0 0 0)) as Hv
    by (unfold valid_day, valid_date; simpl; lia).
  destruct (download_points_request (list row) toy_remote
              "https://api.v2.emissions-api.org" "ozone" _ (World ∅ []) Hv)
    as (Hrun & Hord & _).
  split; [exact Hrun | exact Hord].
Defined.

Lemma get_points_with_cache_witness :
  toy_get_points "u" "ozone" (Date 2020 2 28) true
                 (World {[ "cache-ozone-2020-02-28" := [null_row] ]} [])
  = (Returned [null_row],
     World {[ "cache-ozone-2020-02-28" := [null_row] ]}
           [PathExists "cache-ozone-2020-02-28"; ReadCache "cache-ozone-2020-02-28"]) /\
  toy_get_points "u" "ozone" (Date 2020 2 28) true (World ∅ [])
  = (Returned toy_prepared,
     World (<[ "cache-ozone-2020-02-28" := toy_prepared ]> ∅)
           [PathExists "cache-ozone-2020-02-28";
            HttpGet "u/api/v2/ozone/geo.json?begin=2020-02-28&end=2020-02-29";
            Prepare toy_frame; ToFile "cache-ozone-2020-02-28"]).
Proof.
  split.
  - assert (({[ "cache-ozone-2020-02-28" := [null_row] ]} : gmap string (list row))
            !! cache_filename "ozone" (Date 2020 2 28) = Some [null_row]) as Hhit
      by (vm_compute; reflexivity).
    exact (proj1 (get_points_with_cache toy_geo_to_h3 toy_boundary (list row)
                    Returned Returned toy_remote "u" "ozone" (Date 2020 2 28)
                    (World {[ "cache-ozone-2020-02-28" := [null_row] ]} []))
                 _ _ Hhit eq_refl).
  - assert ((∅ : gmap string (list row))
            !! cache_filename "ozone" (Date 2020 2 28) = None) as Hmiss
      by (vm_compute; reflexivity).
    assert (fst (prepare toy_geo_to_h3 toy_boundary toy_frame) = Returned toy_prepared)
      as Hprep by (rewrite toy_prepare_eq; reflexivity).
    exact (proj2 (proj2 (get_points_with_cache toy_geo_to_h3 toy_boundary (list row)
                    Returned Returned toy_remote "u" "ozone" (Date 2020 2 28)
                    (World ∅ [])))
             (Date 2020 2 29) toy_frame toy_prepared toy_prepared
             Hmiss eq_refl eq_refl Hprep eq_refl).
Defined.

Example get_points_without_cache_run :
  toy_get_points "u" "ozone" (Date 2020 2 28) false
                 (World {[ "cache-ozone-2020-02-28" := [null_row] ]} [])
  = (Returned toy_prepared,
     World {[ "cache-ozone-2020-02-28" := [null_row] ]}
           [HttpGet "u/api/v2/ozone/geo.json?begin=2020-02-28&end=2020-02-29";
            Prepare toy_frame]).
Proof. vm_compute. reflexivity. Qed.

(** * Further properties of the aggregation *)

(** ** Bounds are attained *)

Lemma num_min_cases a b : num_min a b = a \/ num_min a b = b.
Proof. unfold num_min. destruct (decide (a <= b)%Qc); auto. Qed.

Lemma num_max_cases a b : num_max a b = a \/ num_max a b = b.
Proof. unfold num_max. destruct (decide (a <= b)%Qc); auto. Qed.

Lemma attained_widen seen b xy :
  attained seen b -> attained (seen ++ [xy]) (widen b xy).
Proof.
  intros (H1 & H2 & H3 & H4). unfold attained, widen. simpl.
  assert (forall (f : num * num -> num) c m,
            (exists v, v ∈ seen /\ f v = c) -> m = c \/ m = f xy ->
            exists v, v ∈ seen ++ [xy] /\ f v = m) as Hstep.
  { intros f c m (v & Hv & Hf) [->| ->].
    - exists v. split; [apply elem_of_app; auto | assumption].
    - exists xy. split; [apply elem_of_app; right; left | reflexivity]. }
  repeat split.
  - apply (Hstep fst (minx b)); [assumption | apply num_min_cases].
  - apply (Hstep fst (maxx b)); [assumption | apply num_max_cases].
  - apply (Hstep snd (miny b)); [assumption | apply num_min_cases].
  - apply (Hstep snd (maxy b)); [assumption | apply num_max_cases].
Qed.

Lemma fold_widen_attained rest seen b :
  attained seen b -> attained (seen ++ rest) (fold_left widen rest b).
Proof.
  revert seen b. induction rest as [|xy rest IH]; intros seen b H; simpl.
  - now rewrite app_nil_r.
  - replace (seen ++ xy :: rest) with ((seen ++ [xy]) ++ rest)
      by now rewrite <- app_assoc.
    apply IH, attained_widen, H.
Qed.

Lemma bounds_attained p b : bounds p = Some b -> attained (exterior p) b.
Proof.
  unfold bounds. destruct (exterior p) as [|[x y] rest]; [discriminate|].
  intros [= <-]. apply (fold_widen_attained rest [(x, y)]).
  unfold attained. simpl. repeat split; exists (x, y); (split; [left | reflexivity]).
Qed.

Lemma Qcminus_le_compat a b c d : (a <= b)%Qc -> (c <= d)%Qc -> (a - d <= b - c)%Qc.
Proof.
  intros H1 H2. unfold Qcminus. apply Qcplus_le_compat; [assumption|].
  now apply Qcopp_le_compat.
Qed.

(** A polygon is more than 180 degrees wide or high exactly when two points
    of its shell lie that far apart in x or in y. *)
Lemma spans_over_180_points g :
  spans_over_180 g <->
  exists v1 v2, v1 ∈ exterior g /\ v2 ∈ exterior g /\
    ((q 180 < fst v1 - fst v2)%Qc \/ (q 180 < snd v1 - snd v2)%Qc).
Proof.
  split.
  - intros (b & Hb & Hspan).
    destruct (bounds_attained _ _ Hb)
      as ((x0 & Hx0 & Ex0) & (x1 & Hx1 & Ex1) & (y0 & Hy0 & Ey0) & (y1 & Hy1 & Ey1)).
    destruct Hspan as [Hx|Hy].
    + exists x1, x0. rewrite Ex0, Ex1. auto.
    + exists y1, y0. rewrite Ey0, Ey1. auto.
  - intros (v1 & v2 & H1 & H2 & Hfar).
    destruct (bounds g) as [b|] eqn:Hb.
    + exists b. split; [exact Hb|].
      destruct (bounds_enclose _ _ _ Hb H1) as [[_ Hx1] [_ Hy1]].
      destruct (bounds_enclose _ _ _ Hb H2) as [[Hx2 _] [Hy2 _]].
      destruct Hfar as [Hx|Hy]; [left|right].
      * eapply Qclt_le_trans; [exact Hx | now apply Qcminus_le_compat].
      * eapply Qclt_le_trans; [exact Hy | now apply Qcminus_le_compat].
    + unfold bounds in Hb. destruct (exterior g) as [|[x y] rest]; [|discriminate].
      inversion H1.
Qed.

Lemma elem_of_revert lat lon polygon :
  (lon, lat) ∈ revert polygon <-> (lat, lon) ∈ polygon.
Proof.
  unfold revert. rewrite list_elem_of_fmap. split.
  - intros ([lat' lon'] & [= -> ->] & Hin). exact Hin.
  - intros Hin. exists (lat, lon). auto.
Qed.

Lemma StronglySorted_sublist {A} (R : relation A) l1 l2 :
  l1 `sublist_of` l2 -> StronglySorted R l2 -> StronglySorted R l1.
Proof.
  induction 1 as [|x l1 l2 Hsub IH|x l1 l2 Hsub IH]; intros Hs.
  - constructor.
  - inversion Hs as [|? ? Hs' Hall]; subst. constructor; [auto|].
    rewrite Forall_forall in *. intros y Hy. apply Hall.
    eapply elem_of_sublist; eauto.
  - inversion Hs; subst. auto.
Qed.

(** ** How many rows are merged *)

Lemma sum_list_bump (f : string -> nat) k0 ks :
  NoDup ks -> k0 ∈ ks ->
  sum_list (fmap (fun k => if decide (k0 = k) then S (f k) else f k) ks)
  = S (sum_list (fmap f ks)).
Proof.
  induction 1 as [|a ks Ha Hnd IH]; intros Hin; [inversion Hin|].
  rewrite !fmap_cons. cbn [sum_list sum_list_with id].
  destruct (decide (k0 = a)) as [->|Hne].
  - assert (fmap (fun k => if decide (a = k) then S (f k) else f k) ks
            = fmap f ks) as ->; [|lia].
    apply Forall_fmap_ext, Forall_forall.
    intros k Hk. rewrite decide_False; [reflexivity | congruence].
  - apply elem_of_cons in Hin as [|Hin]; [contradiction|].
    rewrite IH by assumption. lia.
Qed.

(** Every row is filed under one key: over a list of distinct keys that
    has the key of every row, the numbers of values add up to the number
    of rows. *)
Lemma values_of_lengths (keyed : list (string * float)) ks :
  NoDup ks -> (forall kv, kv ∈ keyed -> fst kv ∈ ks) ->
  sum_list (fmap (fun k => length (values_of k keyed)) ks) = length keyed.
Proof.
  intros Hnd. induction keyed as [|[k0 v] keyed IH]; intros Hall.
  - clear. induction ks as [|k ks IHks]; [reflexivity|]. exact IHks.
  - simpl. rewrite <- IH by (intros kv Hkv; apply Hall; now right).
    rewrite <- (sum_list_bump _ k0 ks Hnd) by (apply (Hall (k0, v)); left).
    f_equal. apply Forall_fmap_ext, Forall_forall. intros k _.
    rewrite values_of_cons. now destruct (decide (k0 = k)).
Qed.

Lemma values_of_nonempty k (keyed : list (string * float)) :
  values_of k keyed <> [] <-> k ∈ fmap fst keyed.
Proof.
  unfold values_of. rewrite list_elem_of_fmap. split.
  - intros H. destruct (filter (fun kv => fst kv = k) keyed) as [|kv l] eqn:Hf;
      [done|].
    assert (kv ∈ filter (fun kv => fst kv = k) keyed) as Hkv by (rewrite Hf; left).
    apply list_elem_of_filter in Hkv as [Hk Hin]. exists kv. auto.
  - intros (kv & -> & Hin) Hnil.
    assert (kv ∈ filter (fun kv' => fst kv' = fst kv) keyed) as Hkv
      by (apply list_elem_of_filter; auto).
    apply (list_elem_of_fmap_2 snd) in Hkv. rewrite Hnil in Hkv. inversion Hkv.
Qed.

(** The table has an entry for the key of every row, and for no other
    key. *)
Lemma group_sums_key keyed k :
  k ∈ fmap fst (group_sums keyed) <-> k ∈ fmap fst keyed.
Proof.
  rewrite <- values_of_nonempty.
  destruct (group_sums_assoc keyed k) as [_ Ha].
  pose proof (assoc_None k (group_sums keyed)) as Hn. rewrite Ha in Hn.
  destruct (values_of k keyed) as [|v vs]; simpl in Hn.
  - split; [|intros H; now destruct H].
    intros Hin. exfalso. now apply (proj1 Hn eq_refl).
  - split; [discriminate|]. intros _.
    destruct (decide (k ∈ fmap fst (group_sums keyed))) as [|Hno]; [assumption|].
    apply Hn in Hno. discriminate.
Qed.

Lemma group_sums_length keyed : (length (group_sums keyed) <= length keyed)%nat.
Proof.
  rewrite <- (length_fmap fst (group_sums keyed)), <- (length_fmap fst keyed).
  apply submseteq_length, NoDup_submseteq.
  - apply ordered_NoDup, group_sums_ordered.
  - intros k. apply group_sums_key.
Qed.

Lemma StronglySorted_after {A} (R : relation A) l1 x l2 :
  StronglySorted R (l1 ++ x :: l2) -> Forall (R x) l2.
Proof.
  induction l1 as [|y l1 IH]; simpl; intros H; inversion H; subst; auto.
Qed.

(** ** More on prepare *)

Section PrepareMore.

Variable geo_to_h3 : num -> num -> nat -> result string.
Variable h3_to_geo_boundary : string -> result (list (num * num)).

Lemma retained_iff_crossing df out df' k poly :
  prepare geo_to_h3 h3_to_geo_boundary df = (Returned out, df') ->
  (exists p, p ∈ features df /\ in_cell geo_to_h3 k p) ->
  h3_to_geo_boundary k = Returned poly ->
  k ∈ cell_keys out <-> crossing (MkPolygon (revert poly)) = false.
Proof.
  intros Hp Hocc Hb. apply cell_values_nonempty in Hocc. split.
  - unfold cell_keys. intros (r & Hin & Hk)%list_elem_of_omap.
    destruct (row_of_key _ _ _ _ _ _ _ Hp Hin Hk) as (poly' & _ & Hb' & Hc & _).
    rewrite Hb in Hb'. now injection Hb' as <-.
  - intros Hc. unfold cell_keys. apply list_elem_of_omap.
    exists (final_row (k, arithmetic_mean (cell_values geo_to_h3 k (features df)))
                      poly).
    split; [apply (prepare_rows _ _ _ _ _ Hp); eauto|].
    unfold final_row. now rewrite Hc.
Qed.

(** X2.  A cell that holds a feature keeps its row exactly when no two
    vertices of its h3 boundary lie more than 180 degrees apart, in
    longitude or in latitude. *)
Theorem retained_iff_vertices_near df out df' k poly :
  prepare geo_to_h3 h3_to_geo_boundary df = (Returned out, df') ->
  (exists p, p ∈ features df /\ in_cell geo_to_h3 k p) ->
  h3_to_geo_boundary k = Returned poly ->
  k ∈ cell_keys out <->
  forall lat1 lon1 lat2 lon2,
    (lat1, lon1) ∈ poly -> (lat2, lon2) ∈ poly ->
    (lon1 - lon2 <= q 180)%Qc /\ (lat1 - lat2 <= q 180)%Qc.
Proof.
  intros Hp Hocc Hb. rewrite (retained_iff_crossing _ _ _ _ _ Hp Hocc Hb).
  rewrite <- not_true_iff_false, crossing_spans, spans_over_180_points. simpl.
  split.
  - intros Hno lat1 lon1 lat2 lon2 H1 H2.
    split; apply Qcle_ngt; intros Hfar; apply Hno;
      exists (lon1, lat1), (lon2, lat2);
      rewrite !elem_of_revert; auto.
  - intros Hnear ([lon1 lat1] & [lon2 lat2] & H1 & H2 & Hfar).
    apply (proj1 (elem_of_revert _ _ _)) in H1, H2.
    destruct (Hnear _ _ _ _ H1 H2) as [Hx Hy]. simpl in Hfar.
    destruct Hfar as [Hfar|Hfar]; eapply Qclt_not_le; eauto.
Qed.

(** X3.  The comparison of latitudes never masks a cell whose boundary
    keeps its latitudes within [-90, 90]: such a cell keeps its row
    exactly when no two vertices of the boundary lie more than 180 degrees
    apart in longitude. *)
Theorem latitude_never_masks df out df' k poly :
  prepare geo_to_h3 h3_to_geo_boundary df = (Returned out, df') ->
  (exists p, p ∈ features df /\ in_cell geo_to_h3 k p) ->
  h3_to_geo_boundary k = Returned poly ->
  (forall lat lon, (lat, lon) ∈ poly -> (q (-90) <= lat <= q 90)%Qc) ->
  k ∈ cell_keys out <->
  forall lat1 lon1 lat2 lon2,
    (lat1, lon1) ∈ poly -> (lat2, lon2) ∈ poly -> (lon1 - lon2 <= q 180)%Qc.
Proof.
  intros Hp Hocc Hb Hlat. rewrite (retained_iff_crossing _ _ _ _ _ Hp Hocc Hb).
  rewrite <- not_true_iff_false, crossing_spans, spans_over_180_points. simpl.
  split.
  - intros Hno lat1 lon1 lat2 lon2 H1 H2.
    apply Qcle_ngt; intros Hfar; apply Hno.
    exists (lon1, lat1), (lon2, lat2). rewrite !elem_of_revert; auto.
  - intros Hnear ([lon1 lat1] & [lon2 lat2] & H1 & H2 & Hfar).
    apply (proj1 (elem_of_revert _ _ _)) in H1, H2. simpl in Hfar.
    destruct Hfar as [Hfar|Hfar].
    + eapply Qclt_not_le; [exact Hfar | eauto].
    + destruct (Hlat _ _ H1) as [_ Hhi]. destruct (Hlat _ _ H2) as [Hlo _].
      eapply Qclt_not_le; [exact Hfar|].
      eapply Qcle_trans; [apply Qcminus_le_compat; eassumption|].
      apply (bool_decide_unpack _). vm_compute. exact I.
Qed.

End PrepareMore.

Section PrepareTotals.

Variable geo_to_h3 : num -> num -> nat -> result string.
Variable h3_to_geo_boundary : string -> result (list (num * num)).

Lemma keyed_of_length pts hexes :
  comprehension (cell_of geo_to_h3) pts = Returned hexes ->
  length (keyed_of geo_to_h3 pts) = length pts /\
  fmap snd (keyed_of geo_to_h3 pts) = fmap value pts.
Proof.
  intros Hh. rewrite <- (comprehension_keyed _ _ _ Hh).
  apply comprehension_length in Hh.
  split.
  - rewrite length_zip_with, length_fmap. lia.
  - apply snd_zip. rewrite length_fmap. lia.
Qed.

Lemma prepare_hexes df out df' hexes :
  prepare geo_to_h3 h3_to_geo_boundary df = (Returned out, df') ->
  hex df' = Some hexes ->
  comprehension (cell_of geo_to_h3) (features df) = Returned hexes /\
  merge_points hexes (features df)
  = groupby_mean (keyed_of geo_to_h3 (features df)) /\
  length out = length (group_sums (keyed_of geo_to_h3 (features df))) /\
  cell_keys out `sublist_of` fmap fst (merge_points hexes (features df)).
Proof.
  intros (hexes' & polygons & Hh & _ & Hb & _ & -> & ->)%prepare_returned [= <-].
  split; [assumption|]. split.
  - unfold merge_points. now rewrite (comprehension_keyed _ _ _ Hh).
  - split; [|apply cell_keys_sublist].
    apply comprehension_length in Hb. rewrite length_fmap in Hb.
    rewrite length_zip_with, Hb, Nat.min_id.
    unfold merge_points, groupby_mean.
    now rewrite length_fmap, (comprehension_keyed _ _ _ Hh).
Qed.

(** X4.  Merging loses no feature and counts none twice: over the rows of
    the merged frame (the frame before masking), every cell holds at least
    one feature, and the numbers of features of the cells add up to the
    number of input features. *)
Theorem merge_counts_every_feature df out df' hexes :
  prepare geo_to_h3 h3_to_geo_boundary df = (Returned out, df') ->
  hex df' = Some hexes ->
  let merged := merge_points hexes (features df) in
  let size k := length (cell_values geo_to_h3 k (features df)) in
  Forall (fun km => (0 < size (fst km))%nat) merged /\
  sum_list (fmap (fun km => size (fst km)) merged) = length (features df).
Proof.
  intros Hp Hhex. destruct (prepare_hexes _ _ _ _ Hp Hhex) as (Hh & Hm & _).
  destruct (keyed_of_length _ _ Hh) as [Hlen _].
  cbv zeta. split.
  - apply Forall_forall. intros [k m] Hin.
    apply (merge_points_elem _ _ _ _ _ Hh) in Hin as [Hne _]. simpl.
    destruct (cell_values geo_to_h3 k (features df)); [congruence | simpl; lia].
  - rewrite <- Hlen.
    rewrite <- (values_of_lengths (keyed_of geo_to_h3 (features df))
                  (fmap fst (group_sums (keyed_of geo_to_h3 (features df))))).
    + rewrite <- groupby_mean_keys, <- Hm, <- list_fmap_compose.
      f_equal. apply Forall_fmap_ext, Forall_forall. intros km _. simpl.
      now rewrite values_of_keyed.
    + apply ordered_NoDup, group_sums_ordered.
    + intros kv Hkv. apply group_sums_key, list_elem_of_fmap. eauto.
Qed.

(** X5.  The prepared frame has at most as many rows as the input has
    features, and it is empty exactly when the input is. *)
Theorem prepare_row_count df out df' :
  prepare geo_to_h3 h3_to_geo_boundary df = (Returned out, df') ->
  (length out <= length (features df))%nat /\
  (out = [] <-> features df = []).
Proof.
  intros Hp. pose proof Hp as Hp'.
  apply prepare_returned in Hp' as (hexes & _ & _ & _ & _ & _ & _ & ->).
  destruct (prepare_hexes _ _ _ hexes Hp eq_refl) as (Hh & _ & Hlen & _).
  destruct (keyed_of_length _ _ Hh) as [Hklen _].
  pose proof (group_sums_length (keyed_of geo_to_h3 (features df))) as Hle.
  split; [lia|]. split.
  - intros ->. simpl in Hlen.
    destruct (features df) as [|p pts] eqn:Hf; [reflexivity|exfalso].
    destruct (keyed_of geo_to_h3 (p :: pts)) as [|[k v] keyed] eqn:Hk;
      [discriminate|].
    assert (k ∈ fmap fst (group_sums ((k, v) :: keyed))) as Hin
      by (apply group_sums_key; left).
    destruct (group_sums ((k, v) :: keyed)); [inversion Hin | discriminate].
  - intros Hnil. rewrite Hnil in *. simpl in *.
    destruct out; [reflexivity | simpl in *; lia].
Qed.

(** X6.  The cell rows of the prepared frame come in strictly increasing
    order of their keys, whatever the order of the input. *)
Theorem prepare_rows_ordered df out df' :
  prepare geo_to_h3 h3_to_geo_boundary df = (Returned out, df') ->
  StronglySorted key_lt (cell_keys out).
Proof.
  intros Hp. pose proof Hp as Hp'.
  apply prepare_returned in Hp' as (hexes & _ & _ & _ & _ & _ & _ & ->).
  destruct (prepare_hexes _ _ _ hexes Hp eq_refl) as (_ & Hm & _ & Hsub).
  eapply StronglySorted_sublist; [exact Hsub|].
  rewrite Hm. apply groupby_mean_ordered.
Qed.

(** X7.  When indexing a feature raises, [prepare] raises the exception of
    the first such feature in row order, asks for no boundary and leaves
    the caller's frame as it was. *)
Theorem prepare_raises_first_failure df l1 p l2 e :
  features df = l1 ++ p :: l2 ->
  Forall (fun x => is_returned (cell_of geo_to_h3 x)) l1 ->
  cell_of geo_to_h3 p = Raised e ->
  prepare geo_to_h3 h3_to_geo_boundary df = (Raised e, df).
Proof.
  intros Hf Hl1 Hp.
  assert (comprehension (cell_of geo_to_h3) (features df) = Raised e) as Hc.
  { destruct (comprehension_total (cell_of geo_to_h3) l1) as [ys Hys].
    - eapply Forall_impl; [exact Hl1|]. intros x Hx. simpl in Hx.
      destruct (cell_of geo_to_h3 x); [eauto | contradiction].
    - apply comprehension_raised. exists l1, p, l2, ys.
      split; [assumption|]. split; [now apply comprehension_returned | assumption]. }
  unfold prepare. now rewrite Hc.
Qed.

(** X8.  When every feature is indexed, the frame has its column "value"
    and the boundary of some cell that holds a feature raises, [prepare]
    raises the exception of the least such key, in key order; the frame
    of the caller has its column "hex" all the same. *)
Theorem prepare_raises_least_boundary df hexes k0 :
  comprehension (cell_of geo_to_h3) (features df) = Returned hexes ->
  has_value df = true ->
  (exists p, p ∈ features df /\ in_cell geo_to_h3 k0 p) ->
  ~ is_returned (h3_to_geo_boundary k0) ->
  exists k e,
    (exists p, p ∈ features df /\ in_cell geo_to_h3 k p) /\
    h3_to_geo_boundary k = Raised e /\
    (forall k', (exists p, p ∈ features df /\ in_cell geo_to_h3 k' p) ->
                key_lt k' k -> is_returned (h3_to_geo_boundary k')) /\
    prepare geo_to_h3 h3_to_geo_boundary df
    = (Raised e, Frame (features df) true (Some hexes)).
Proof.
  intros Hh Hv Hocc0 Hbad. unfold prepare. rewrite Hh, Hv. simpl.
  destruct (comprehension h3_to_geo_boundary _) as [polygons|e] eqn:Hb.
  { exfalso. apply Hbad. eapply comprehension_returned_elem; [exact Hb|].
    now apply (merge_points_key _ _ _ _ Hh). }
  apply comprehension_raised in Hb as (l1 & k & l2 & ys & Hl & Hok & Hk).
  pose proof (groupby_mean_ordered (zip hexes (value <$> features df))) as Hs.
  unfold ordered in Hs. fold (merge_points hexes (features df)) in Hs.
  rewrite Hl in Hs.
  exists k, e. split; [|split; [assumption|split; [|reflexivity]]].
  - apply (merge_points_key _ _ _ _ Hh). rewrite Hl. apply elem_of_app. right. left.
  - intros k' Hocc Hlt. apply (merge_points_key _ _ _ _ Hh) in Hocc.
    rewrite Hl in Hocc. apply elem_of_app in Hocc as [Hin|Hin].
    + clear Hs Hl. induction Hok as [|x y l1 ys Hx _ IH]; [inversion Hin|].
      apply elem_of_cons in Hin as [->|Hin]; [now rewrite Hx | auto].
    + exfalso. apply elem_of_cons in Hin as [->|Hin].
      * now apply key_lt_neq in Hlt.
      * apply StronglySorted_after in Hs. rewrite Forall_forall in Hs.
        apply (key_lt_neq k k); [|reflexivity].
        eapply key_lt_trans; [apply Hs, Hin | exact Hlt].
Qed.

End PrepareTotals.

(** * Further properties of the cache *)

Section CacheMore.

Variable geo_to_h3 : num -> num -> nat -> result string.
Variable h3_to_geo_boundary : string -> result (list (num * num)).
Variable file : Type.
Variable read_file : file -> result (list row).
Variable to_file : list row -> result file.
Variable remote : string -> result frame.

Lemma cache_load_run product day (w : world file) :
  cache_load file read_file product day w =
  let fn := cache_filename product day in
  match files w !! fn with
  | None => (Returned None, World (files w) (calls w ++ [PathExists fn]))
  | Some f =>
      (match read_file f with
       | Returned df => Returned (Some df)
       | Raised e => Raised e
       end,
       World (files w) (calls w ++ [PathExists fn; ReadCache fn]))
  end.
Proof.
  unfold cache_load, bind, ret, record, stored, lift. simpl.
  destruct (files w !! cache_filename product day) as [f|]; [|reflexivity].
  simpl. rewrite <- app_assoc. simpl. now destruct (read_file f).
Qed.

Lemma cache_save_run df product day (w : world file) :
  cache_save file to_file df product day w =
  let fn := cache_filename product day in
  match to_file df with
  | Returned f => (Returned tt, World (<[fn := f]> (files w)) (calls w ++ [ToFile fn]))
  | Raised e => (Raised e, World (files w) (calls w ++ [ToFile fn]))
  end.
Proof.
  unfold cache_save, bind, record, lift, store. simpl.
  now destruct (to_file df).
Qed.

(** X9.  Loading after saving reads back the file that was written: when
    the write of a frame goes through, [cache_load] for the same product
    and day gives what geopandas reads from what it wrote (the frame
    itself when the file format loses nothing), and the save has changed
    no file under another name. *)
Theorem cache_save_then_load df product day (w : world file) f :
  to_file df = Returned f ->
  let saved := snd (cache_save file to_file df product day w) in
  fst (cache_load file read_file product day saved)
  = match read_file f with
    | Returned df' => Returned (Some df')
    | Raised e => Raised e
    end /\
  (read_file f = Returned df ->
   fst (cache_load file read_file product day saved) = Returned (Some df)) /\
  forall fn, fn <> cache_filename product day ->
             files saved !! fn = files w !! fn.
Proof.
  intros Hw saved. subst saved. rewrite cache_save_run, Hw. simpl.
  rewrite cache_load_run. simpl. rewrite lookup_insert_eq. simpl.
  split; [reflexivity|]. split.
  - now intros ->.
  - intros fn Hne. now rewrite lookup_insert_ne.
Qed.

Lemma get_points_cached_run url product day (w : world file) :
  get_points geo_to_h3 h3_to_geo_boundary file read_file to_file remote
             url product day true w =
  let fn := cache_filename product day in
  match files w !! fn with
  | Some f =>
      (read_file f, World (files w) (calls w ++ [PathExists fn; ReadCache fn]))
  | None =>
      match add_one_day day with
      | Raised e => (Raised e, World (files w) (calls w ++ [PathExists fn]))
      | Returned next =>
          let target := request url product day next in
          match remote target with
          | Raised e =>
              (Raised e, World (files w) (calls w ++ [PathExists fn; HttpGet target]))
          | Returned raw =>
              match fst (prepare geo_to_h3 h3_to_geo_boundary raw) with
              | Raised e =>
                  (Raised e,
                   World (files w)
                         (calls w ++ [PathExists fn; HttpGet target; Prepare raw]))
              | Returned df =>
                  match to_file df with
                  | Raised e =>
                      (Raised e,
                       World (files w)
                             (calls w ++ [PathExists fn; HttpGet target;
                                          Prepare raw; ToFile fn]))
                  | Returned f =>
                      (Returned df,
                       World (<[fn := f]> (files w))
                             (calls w ++ [PathExists fn; HttpGet target;
                                          Prepare raw; ToFile fn]))
                  end
              end
          end
      end
  end.
Proof.
  unfold get_points. unfold bind at 1. rewrite cache_load_run. simpl.
  destruct (files w !! cache_filename product day) as [f|] eqn:Hf.
  - destruct (read_file f); reflexivity.
  - unfold bind at 1. rewrite download_points_run.
    destruct (add_one_day day) as [next|e]; [|reflexivity]. simpl.
    destruct (remote _) as [raw|e]; simpl; [|now rewrite <- app_assoc].
    unfold bind at 1. unfold run_prepare, bind, record, lift. simpl.
    destruct (fst (prepare geo_to_h3 h3_to_geo_boundary raw)) as [df|e]; simpl;
      [|now rewrite <- !app_assoc].
    rewrite cache_save_run. simpl.
    destruct (to_file df); simpl; unfold ret; now rewrite <- !app_assoc.
Qed.

(** X10.  Once a run of [get_points] with the cache has returned, the cache
    file of its product and day exists, and every further run for that
    product and day, whatever the URL, is answered from that file: an
    existence test and a read, no download, no [prepare], no write, and
    the files stay as they are. *)
Theorem get_points_again_reads_cache url url' product day (w w1 : world file) df :
  get_points geo_to_h3 h3_to_geo_boundary file read_file to_file remote
             url product day true w = (Returned df, w1) ->
  let fn := cache_filename product day in
  exists f,
    files w1 !! fn = Some f /\
    (files w !! fn = Some f \/ (files w !! fn = None /\ to_file df = Returned f)) /\
    get_points geo_to_h3 h3_to_geo_boundary file read_file to_file remote
               url' product day true w1
    = (read_file f, World (files w1) (calls w1 ++ [PathExists fn; ReadCache fn])).
Proof.
  intros Hrun fn. rewrite get_points_cached_run in Hrun. cbv zeta in Hrun.
  fold fn in Hrun.
  assert (forall f, files w1 !! fn = Some f ->
            get_points geo_to_h3 h3_to_geo_boundary file read_file to_file remote
                       url' product day true w1
            = (read_file f,
               World (files w1) (calls w1 ++ [PathExists fn; ReadCache fn])))
    as Hagain.
  { intros f Hf. rewrite get_points_cached_run. cbv zeta. fold fn.
    now rewrite Hf. }
  destruct (files w !! fn) as [f|] eqn:Hf.
  - injection Hrun as Hr <-. exists f. simpl. auto.
  - destruct (add_one_day day) as [next|e]; [|discriminate].
    destruct (remote _) as [raw|e]; [|discriminate].
    destruct (fst (prepare geo_to_h3 h3_to_geo_boundary raw)) as [df0|e];
      [|discriminate].
    destruct (to_file df0) as [f|e] eqn:Hw; [|discriminate].
    injection Hrun as -> <-. exists f.
    assert (<[fn := f]> (files w) !! fn = Some f) as Hnew
      by apply lookup_insert_eq.
    simpl. auto.
Qed.

Lemma get_points_without_cache_files url product day (w : world file) :
  files (snd (get_points geo_to_h3 h3_to_geo_boundary file read_file to_file
                         remote url product day false w)) = files w /\
  forall c, c ∈ calls (snd (get_points geo_to_h3 h3_to_geo_boundary file read_file
                                      to_file remote url product day false w)) ->
            c ∈ calls w \/ is_cache_call c = false.
Proof.
  rewrite get_points_uncached_run.
  destruct (add_one_day day) as [next|e]; simpl; [|auto].
  destruct (remote _) as [raw|e]; simpl; (split; [reflexivity|]);
    intros c [Hc|Hc]%elem_of_app; auto; right;
    repeat (apply elem_of_cons in Hc as [->|Hc]; [reflexivity|]);
    inversion Hc.
Qed.

(** X11.  Whatever its outcome, [get_points] changes no file under another
    name than the cache file of its product and day; and when that file
    exists, or the cache is off, it changes no file at all.  When the
    file exists it makes no call beyond the existence test and the read. *)
Theorem get_points_writes_one_file url product day cache (w : world file) :
  let fn := cache_filename product day in
  let run := get_points geo_to_h3 h3_to_geo_boundary file read_file to_file remote
                        url product day cache w in
  (forall fn', fn' <> fn -> files (snd run) !! fn' = files w !! fn') /\
  (cache = false \/ is_Some (files w !! fn) -> files (snd run) = files w) /\
  (cache = true -> is_Some (files w !! fn) ->
   calls (snd run) = calls w ++ [PathExists fn; ReadCache fn]).
Proof.
  intros fn run. subst run. destruct cache.
  - rewrite get_points_cached_run. fold fn. cbv zeta.
    destruct (files w !! fn) as [f|] eqn:Hf.
    + simpl. repeat split; auto.
    + split; [|split; [intros [[=]|[? [=]]] | intros _ [? [=]]]].
      intros fn' Hne.
      destruct (add_one_day day) as [next|e]; [|reflexivity].
      destruct (remote _) as [raw|e]; [|reflexivity].
      destruct (fst (prepare geo_to_h3 h3_to_geo_boundary raw)) as [df|e];
        [|reflexivity].
      destruct (to_file df) as [f|e]; [|reflexivity].
      simpl. now rewrite lookup_insert_ne.
  - destruct (get_points_without_cache_files url product day w) as [Hfiles _].
    split; [intros fn' _; now rewrite Hfiles|].
    split; [intros _; exact Hfiles | discriminate].
Qed.

(** X12.  A cache file that cannot be read is not replaced: when the file
    exists and reading it raises, [get_points] raises that exception after
    the existence test and the read; it does not fall back on the download,
    and the file stays. *)
Theorem get_points_unreadable_cache url product day (w : world file) f e :
  files w !! cache_filename product day = Some f ->
  read_file f = Raised e ->
  get_points geo_to_h3 h3_to_geo_boundary file read_file to_file remote
             url product day true w
  = (Raised e,
     World (files w)
           (calls w ++ [PathExists (cache_filename product day);
                        ReadCache (cache_filename product day)])).
Proof.
  intros Hf Hr. rewrite get_points_cached_run. cbv zeta. now rewrite Hf, Hr.
Qed.

Lemma prepare_without_values df hexes :
  comprehension (cell_of geo_to_h3) (features df) = Returned hexes ->
  has_value df = false ->
  prepare geo_to_h3 h3_to_geo_boundary df
  = (Raised "KeyError", Frame (features df) false (Some hexes)).
Proof. intros Hh Hv. unfold prepare. now rewrite Hh, Hv. Qed.

(** X21.  A download without the column "value" is not prepared: that is
    what the service gives for a day without data, a collection without
    features.  [get_points] then raises KeyError after the request and the
    call of [prepare]; with the cache on it writes nothing, so that the
    next run asks the service again. *)
Theorem get_points_without_values url product day cache next raw hexes
    (w : world file) :
  add_one_day day = Returned next ->
  remote (request url product day next) = Returned raw ->
  comprehension (cell_of geo_to_h3) (features raw) = Returned hexes ->
  has_value raw = false ->
  (cache = true -> files w !! cache_filename product day = None) ->
  get_points geo_to_h3 h3_to_geo_boundary file read_file to_file remote
             url product day cache w
  = (Raised "KeyError",
     World (files w)
           (calls w ++ (if cache then [PathExists (cache_filename product day)]
                        else [])
                    ++ [HttpGet (request url product day next); Prepare raw])).
Proof.
  intros Hnext Hraw Hh Hv Hmiss. destruct cache.
  - rewrite get_points_cached_run. cbv zeta.
    rewrite (Hmiss eq_refl), Hnext, Hraw, (prepare_without_values _ _ Hh Hv).
    reflexivity.
  - rewrite get_points_uncached_run, Hnext. cbv zeta.
    rewrite Hraw, (prepare_without_values _ _ Hh Hv). reflexivity.
Qed.

End CacheMore.

(** * Cache names *)

Lemma list_ascii_of_append s t :
  list_ascii_of_string (s +:+ t)
  = list_ascii_of_string s ++ list_ascii_of_string t.
Proof. induction s as [|c s IH]; simpl; [reflexivity | now rewrite IH]. Qed.

Lemma list_ascii_of_string_inj s t :
  list_ascii_of_string s = list_ascii_of_string t -> s = t.
Proof.
  intros H. rewrite <- (string_of_list_ascii_of_string s),
    <- (string_of_list_ascii_of_string t). now rewrite H.
Qed.

(** Of two lists with a common end, the shorter end is the end of the
    longer one. *)
Lemma common_end {A} (a1 t1 a2 t2 : list A) :
  a1 ++ t1 = a2 ++ t2 -> (length t1 <= length t2)%nat ->
  t1 = drop (length t2 - length t1) t2 /\
  a1 = a2 ++ take (length t2 - length t1) t2.
Proof.
  intros Heq Hle.
  assert (length a1 = length a2 + (length t2 - length t1))%nat as Hlen.
  { apply (f_equal length) in Heq. rewrite !length_app in Heq. lia. }
  pose proof (drop_app_length a1 t1) as Hd.
  pose proof (take_app_length a1 t1) as Htk.
  rewrite Heq, Hlen in Hd, Htk.
  rewrite drop_app_add in Hd. rewrite take_app_add in Htk. auto.
Qed.

Lemma digit_is_digit n c : digit n = c -> is_digit c = true.
Proof. intros <-. apply is_digit_digit. Qed.

Lemma digit_mod n m : digit n = digit m -> (n mod 10 = m mod 10)%Z.
Proof. intros H. rewrite <- !digit_value. now rewrite H. Qed.

Lemma zfill_inj w n m :
  (0 <= n < 10 ^ Z.of_nat w)%Z -> (0 <= m < 10 ^ Z.of_nat w)%Z ->
  zfill w n = zfill w m -> n = m.
Proof.
  intros Hn Hm H.
  rewrite <- (decimal_value_zfill w n Hn), <- (decimal_value_zfill w m Hm).
  now rewrite H.
Qed.

(** A digit is none of the marks that separate the fields of a day. *)
Ltac not_a_digit :=
  match goal with
  | H : digit _ = _ |- _ => apply digit_is_digit in H; discriminate H
  | H : _ = digit _ |- _ => symmetry in H; apply digit_is_digit in H; discriminate H
  end.

Ltac day_chars_explicit :=
  unfold day_chars, isoformat in *;
  repeat match goal with
         | H : context [(?us =? 0)%Z] |- _ => destruct (Z.eqb_spec us 0)
         | |- context [(?us =? 0)%Z] => destruct (Z.eqb_spec us 0)
         end;
  cbv [isoformat_date zfill String.append list_ascii_of_string] in *.

Lemma day_chars_end_le a1 a2 d1 d2 :
  (length (day_chars d1) <= length (day_chars d2))%nat ->
  a1 ++ day_chars d1 = a2 ++ day_chars d2 ->
  day_chars d1 = day_chars d2 /\ a1 = a2.
Proof.
  intros Hle Heq. destruct (common_end _ _ _ _ Heq Hle) as [Ht Ha].
  clear Heq.
  destruct d1 as [y1 m1 d1|y1 m1 d1 hh1 mm1 ss1 us1],
           d2 as [y2 m2 d2|y2 m2 d2 hh2 mm2 ss2 us2];
    day_chars_explicit;
    cbn [length Nat.sub drop take] in *;
    try (exfalso; lia);
    try (rewrite app_nil_r in Ha; now split);
    exfalso; injection Ht; intros; not_a_digit.
Qed.

(** Two names that end in the writing of a day end in the same writing. *)
Lemma day_chars_end a1 a2 d1 d2 :
  a1 ++ day_chars d1 = a2 ++ day_chars d2 ->
  day_chars d1 = day_chars d2 /\ a1 = a2.
Proof.
  intros Heq.
  destruct (Nat.le_ge_cases (length (day_chars d1)) (length (day_chars d2)))
    as [Hle|Hge].
  - now apply day_chars_end_le.
  - symmetry in Heq. destruct (day_chars_end_le _ _ _ _ Hge Heq) as [-> ->].
    now split.
Qed.

Ltac same_field w a b :=
  assert (a = b) by
    (apply (zfill_inj w); [lia | lia |];
     cbv [zfill String.append]; congruence).

(** Days in their ranges are written differently. *)
Lemma day_chars_inj d1 d2 :
  valid_day d1 -> valid_day d2 -> day_chars d1 = day_chars d2 -> d1 = d2.
Proof.
  destruct d1 as [y1 m1 d1|y1 m1 d1 hh1 mm1 ss1 us1],
           d2 as [y2 m2 d2|y2 m2 d2 hh2 mm2 ss2 us2];
    unfold valid_day, valid_date; intros Hv1 Hv2 Heq;
    day_chars_explicit;
    try (apply (f_equal length) in Heq; discriminate Heq);
    injection Heq; intros.
  - assert (d1 <= 31 /\ d2 <= 31)%Z
      by (unfold days_in_month in *; repeat case_match; lia).
    same_field 4%nat y1 y2. same_field 2%nat m1 m2. same_field 2%nat d1 d2.
    congruence.
  - assert (d1 <= 31 /\ d2 <= 31)%Z
      by (unfold days_in_month in *; repeat case_match; lia).
    same_field 4%nat y1 y2. same_field 2%nat m1 m2. same_field 2%nat d1 d2.
    same_field 2%nat hh1 hh2. same_field 2%nat mm1 mm2. same_field 2%nat ss1 ss2.
    congruence.
  - assert (d1 <= 31 /\ d2 <= 31)%Z
      by (unfold days_in_month in *; repeat case_match; lia).
    same_field 4%nat y1 y2. same_field 2%nat m1 m2. same_field 2%nat d1 d2.
    same_field 2%nat hh1 hh2. same_field 2%nat mm1 mm2. same_field 2%nat ss1 ss2.
    same_field 6%nat us1 us2.
    congruence.
Qed.

(** X13.  Cache files do not collide: for days in their ranges, dates or
    datetimes, two cache names are equal only for the same product and the
    same day. *)
Theorem cache_filename_inj product1 day1 product2 day2 :
  valid_day day1 -> valid_day day2 ->
  cache_filename product1 day1 = cache_filename product2 day2 ->
  product1 = product2 /\ day1 = day2.
Proof.
  intros Hv1 Hv2 Heq. unfold cache_filename in Heq.
  apply (f_equal list_ascii_of_string) in Heq.
  rewrite !list_ascii_of_append in Heq.
  apply app_inv_head in Heq. rewrite !app_assoc in Heq.
  apply day_chars_end in Heq as [Hday Hname].
  apply app_inv_tail in Hname.
  split; [now apply list_ascii_of_string_inj | now apply day_chars_inj].
Qed.

(** ** The command line and [main] *)

(** X20.  [revert] is its own inverse: reverting a polygon twice gives
    the polygon back, vertex by vertex and in the same order. *)
Theorem revert_involutive (polygon : list (num * num)) :
  revert (revert polygon) = polygon.
Proof.
  unfold revert. induction polygon as [|[lat lon] l IH]; [reflexivity|].
  cbn. now f_equal.
Qed.

Lemma parse_args_snoc opts o product day :
  parse_args (opts ++ [o]) product day = set_option (parse_args opts product day) o.
Proof. unfold parse_args. now rewrite fold_left_app. Qed.

Lemma parse_args_positionals opts product day :
  ns_product (parse_args opts product day) = product /\
  ns_day (parse_args opts product day) = day.
Proof.
  induction opts as [|o opts IH] using rev_ind; [split; reflexivity|].
  rewrite parse_args_snoc.
  destruct (parse_args opts product day), o; exact IH.
Qed.

Lemma parse_args_no_caching opts product day :
  ns_no_caching (parse_args opts product day) = true <-> OptNoCaching ∈ opts.
Proof.
  induction opts as [|o opts IH] using rev_ind.
  - split; [discriminate | intros H; inversion H].
  - rewrite parse_args_snoc, elem_of_app, list_elem_of_singleton.
    destruct (parse_args opts product day), o; simpl in *;
      rewrite <- ?IH; split; auto; intros [H|H]; auto; discriminate.
Qed.

Lemma parse_args_sizes opts product day :
  let ns := parse_args opts product day in
  (ns_pixels_x ns = PyInt 8000 \/ exists s, ns_pixels_x ns = PyStr s) /\
  (ns_pixels_y ns = PyInt 4000 \/ exists s, ns_pixels_y ns = PyStr s) /\
  (ns_dpi ns = PyInt 96 \/ exists s, ns_dpi ns = PyStr s) /\
  if existsb is_size_option opts
  then (exists s, ns_pixels_x ns = PyStr s) \/ (exists s, ns_pixels_y ns = PyStr s) \/
       (exists s, ns_dpi ns = PyStr s)
  else ns_pixels_x ns = PyInt 8000 /\ ns_pixels_y ns = PyInt 4000 /\
       ns_dpi ns = PyInt 96.
Proof.
  induction opts as [|o opts IH] using rev_ind; [simpl; tauto|].
  rewrite parse_args_snoc, existsb_app. simpl in *. rewrite orb_false_r.
  destruct IH as (IH1 & IH2 & IH3 & IH4).
  destruct (parse_args opts product day), (existsb is_size_option opts), o;
    simpl in *; repeat split; eauto; tauto.
Qed.

Lemma parse_args_texts opts product day :
  let ns := parse_args opts product day in
  ((forall s, OptOutput s ∈ opts -> s = "") -> falsy (ns_output ns) = true) /\
  ((forall s, OptTitle s ∈ opts -> s = "") -> falsy (ns_title ns) = true) /\
  ((forall s, OptLegendTitle s ∈ opts -> s = "") ->
   falsy (ns_legend_title ns) = true).
Proof.
  induction opts as [|o opts IH] using rev_ind; [now repeat split|].
  rewrite parse_args_snoc. simpl in *.
  destruct IH as (IH1 & IH2 & IH3).
  assert (forall P : cli_option -> Prop,
            (forall x, x ∈ opts ++ [o] -> P x) ->
            (forall x, x ∈ opts -> P x) /\ P o) as Hsplit.
  { intros P H. split; [intros x Hx|]; apply H, elem_of_app; auto.
    right. now apply list_elem_of_singleton. }
  destruct (parse_args opts product day); simpl in *.
  repeat split; intros H;
    (destruct o; simpl;
     try (first [apply IH1 | apply IH2 | apply IH3];
          intros s' Hs'; apply H, elem_of_app; now left));
    rewrite (H s) by (apply elem_of_app; right; now apply list_elem_of_singleton);
    reflexivity.
Qed.

Section MainMore.

Variable geo_to_h3 : num -> num -> nat -> result string.
Variable h3_to_geo_boundary : string -> result (list (num * num)).
Variable file : Type.
Variable read_file : file -> result (list row).
Variable to_file : list row -> result file.
Variable remote : string -> result frame.
Variable fromisoformat : string -> result (Z * Z * Z).
Variable capitalize : string -> string.

Lemma parse_command_line_run opts product day :
  parse_command_line fromisoformat capitalize opts product day =
  match fromisoformat day with
  | Raised e => Raised e
  | Returned (y, m, d) =>
      let ns := parse_args opts product day in
      Returned
        (MkArguments
           (ns_verbose ns) (ns_url ns) (ns_no_caching ns)
           (if falsy (ns_output ns)
            then product +:+ "-" +:+ isoformat (Date y m d) +:+ ".png"
            else default "" (ns_output ns))
           (ns_colormap ns) (ns_legend ns) (ns_pixels_x ns) (ns_pixels_y ns)
           (ns_dpi ns)
           (if falsy (ns_title ns)
            then capitalize product +:+ " " +:+ isoformat (Date y m d)
            else default "" (ns_title ns))
           (if falsy (ns_legend_title ns) then capitalize product
            else default "" (ns_legend_title ns))
           (ns_font_size ns) (ns_vmin ns) (ns_vmax ns) product (Date y m d))
  end.
Proof.
  unfold parse_command_line.
  destruct (parse_args_positionals opts product day) as [-> ->].
  destruct (fromisoformat day) as [[[y m] d]|e]; reflexivity.
Qed.

Lemma main_run opts product day (w : world file) :
  main geo_to_h3 h3_to_geo_boundary file read_file to_file remote
       fromisoformat capitalize opts product day w =
  match parse_command_line fromisoformat capitalize opts product day with
  | Raised e => (Raised e, w)
  | Returned args =>
      match get_points geo_to_h3 h3_to_geo_boundary file read_file to_file remote
                       (a_url args) (a_product args) (a_day args)
                       (negb (a_no_caching args)) w with
      | (Raised e, w1) => (Raised e, w1)
      | (Returned df, w1) =>
          match py_truediv (a_pixels_x args) (a_dpi args),
                py_truediv (a_pixels_y args) (a_dpi args) with
          | Returned size_x, Returned size_y =>
              (Returned
                 (PlotCall df (a_output args) (size_x, size_y) (a_dpi args)
                           (a_legend args) (a_colormap args) (a_title args)
                           (a_legend_title args) (a_font_size args)
                           (a_vmin args) (a_vmax args)), w1)
          | Raised e, _ => (Raised e, w1)
          | Returned _, Raised e => (Raised e, w1)
          end
      end
  end.
Proof.
  unfold main. unfold bind at 1. unfold lift at 1.
  destruct (parse_command_line _ _ _ _ _) as [args|e]; [|reflexivity].
  unfold bind at 1.
  destruct (get_points _ _ _ _ _ _ _ _ _ _ w) as [[df|e] w1]; [|reflexivity].
  unfold bind, lift, ret.
  destruct (py_truediv (a_pixels_x args) (a_dpi args)); [|reflexivity].
  destruct (py_truediv (a_pixels_y args) (a_dpi args)); reflexivity.
Qed.

(** X14.  Giving any of [--pixels_x], [--pixels_y] or [--dpi] makes [main]
    fail: the value stays a string and the division for the size raises
    TypeError.  It does so only after [get_points] has run, so the download
    and the write of the cache have already happened; no run with such an
    option reaches [plot]. *)
Theorem main_size_option_raises opts product day (w : world file) :
  existsb is_size_option opts = true ->
  (forall pc w1,
     main geo_to_h3 h3_to_geo_boundary file read_file to_file remote
          fromisoformat capitalize opts product day w <> (Returned pc, w1)) /\
  (forall args df w1,
     parse_command_line fromisoformat capitalize opts product day
     = Returned args ->
     get_points geo_to_h3 h3_to_geo_boundary file read_file to_file remote
                (a_url args) (a_product args) (a_day args)
                (negb (a_no_caching args)) w = (Returned df, w1) ->
     main geo_to_h3 h3_to_geo_boundary file read_file to_file remote
          fromisoformat capitalize opts product day w = (Raised "TypeError", w1)).
Proof.
  intros Hgiven.
  assert (forall args,
            parse_command_line fromisoformat capitalize opts product day
            = Returned args ->
            py_truediv (a_pixels_x args) (a_dpi args) = Raised "TypeError" \/
            (exists v, py_truediv (a_pixels_x args) (a_dpi args) = Returned v) /\
            py_truediv (a_pixels_y args) (a_dpi args) = Raised "TypeError")
    as Hdiv.
  { intros args Hargs. rewrite parse_command_line_run in Hargs.
    destruct (fromisoformat day) as [[[y m] d]|e]; [|discriminate].
    injection Hargs as <-. cbn [a_pixels_x a_pixels_y a_dpi].
    pose proof (parse_args_sizes opts product day) as Hs. cbv zeta in Hs.
    rewrite Hgiven in Hs.
    destruct Hs as ([-> | [sx ->]] & [-> | [sy ->]] & [-> | [sd ->]] & Hs);
      simpl; eauto;
      destruct Hs as [[? ?] | [[? ?] | [? ?]]]; discriminate. }
  split.
  - intros pc w1. rewrite main_run.
    destruct (parse_command_line _ _ _ _ _) as [args|e]; [|discriminate].
    destruct (get_points _ _ _ _ _ _ _ _ _ _ w) as [[df|e] w']; [|discriminate].
    destruct (Hdiv args eq_refl) as [-> | [[v ->] ->]]; discriminate.
  - intros args df w1 Hargs Hrun. rewrite main_run, Hargs, Hrun.
    destruct (Hdiv args Hargs) as [-> | [[v ->] ->]]; reflexivity.
Qed.

(** X15.  Every call of [plot] that [main] makes has the size
    (8000/96, 4000/96) inches at 96 dpi, an image of 8000 by 4000 pixels,
    and is made without a size option; its data is what [get_points]
    returned. *)
Theorem main_plot_size opts product day (w w1 : world file) pc :
  main geo_to_h3 h3_to_geo_boundary file read_file to_file remote
       fromisoformat capitalize opts product day w = (Returned pc, w1) ->
  pc_size pc = (Qc_of_Z 8000 / Qc_of_Z 96, Qc_of_Z 4000 / Qc_of_Z 96)%Qc /\
  pc_dpi pc = PyInt 96 /\
  existsb is_size_option opts = false /\
  exists args,
    parse_command_line fromisoformat capitalize opts product day = Returned args /\
    get_points geo_to_h3 h3_to_geo_boundary file read_file to_file remote
               (a_url args) product (a_day args) (negb (a_no_caching args)) w
    = (Returned (pc_data pc), w1).
Proof.
  rewrite main_run. intros Hrun.
  destruct (parse_command_line _ _ _ _ _) as [args|e] eqn:Hargs; [|discriminate].
  destruct (get_points _ _ _ _ _ _ _ _ _ _ w) as [[df|e] w'] eqn:Hget;
    [|discriminate].
  assert (a_product args = product /\
          a_pixels_x args = ns_pixels_x (parse_args opts product day) /\
          a_pixels_y args = ns_pixels_y (parse_args opts product day) /\
          a_dpi args = ns_dpi (parse_args opts product day)) as (Hp & Hx & Hy & Hd).
  { rewrite parse_command_line_run in Hargs.
    destruct (fromisoformat day) as [[[y m] d]|e]; [|discriminate].
    injection Hargs as <-. now repeat split. }
  rewrite Hp in Hget.
  pose proof (parse_args_sizes opts product day) as Hs. cbv zeta in Hs.
  rewrite <- Hx, <- Hy, <- Hd in Hs.
  destruct Hs as ([Hsx | [sx Hsx]] & [Hsy | [sy Hsy]] & [Hsd | [sd Hsd]] & Hs);
    rewrite Hsx, Hsy, Hsd in Hrun; simpl in Hrun; try discriminate.
  injection Hrun as <- <-. simpl.
  destruct (existsb is_size_option opts).
  - rewrite Hsx, Hsy, Hsd in Hs.
    destruct Hs as [[? ?] | [[? ?] | [? ?]]]; discriminate.
  - repeat split. exists args. now split.
Qed.

(** X16.  What [parse_command_line] fills in.  The product is the one
    given and the day is the date that [fromisoformat] read.  When no
    output is given, or only empty ones, the output is
    {product}-{day}.png; in the same way the title falls back to the
    capitalized product, a space and the day, and the legend title to the
    capitalized product: an empty title or legend title cannot be asked
    for. *)
Theorem parse_command_line_defaults opts product day args :
  parse_command_line fromisoformat capitalize opts product day = Returned args ->
  a_product args = product /\
  (exists y m d, fromisoformat day = Returned (y, m, d) /\ a_day args = Date y m d) /\
  ((forall s, OptOutput s ∈ opts -> s = "") ->
   a_output args = product +:+ "-" +:+ isoformat (a_day args) +:+ ".png") /\
  ((forall s, OptTitle s ∈ opts -> s = "") ->
   a_title args = capitalize product +:+ " " +:+ isoformat (a_day args)) /\
  ((forall s, OptLegendTitle s ∈ opts -> s = "") ->
   a_legend_title args = capitalize product).
Proof.
  rewrite parse_command_line_run.
  destruct (fromisoformat day) as [[[y m] d]|e]; [|discriminate].
  cbv zeta. intros [= <-]. cbn [a_product a_day a_output a_title a_legend_title].
  destruct (parse_args_texts opts product day) as (H1 & H2 & H3).
  repeat split.
  - now exists y, m, d.
  - intros H. now rewrite (H1 H).
  - intros H. now rewrite (H2 H).
  - intros H. now rewrite (H3 H).
Qed.

(** X17.  With [--no-caching], [main] calls [get_points] with the cache
    off: it comes to its call of [plot], or fails before it, without an
    existence test, a read or a write of a cache file, and its call of
    [get_points] changes no file. *)
Theorem main_no_caching opts product day (w : world file) :
  OptNoCaching ∈ opts ->
  (forall c,
     c ∈ calls (snd (main geo_to_h3 h3_to_geo_boundary file read_file to_file
                          remote fromisoformat capitalize opts product day w)) ->
     c ∈ calls w \/ is_cache_call c = false) /\
  (forall args,
     parse_command_line fromisoformat capitalize opts product day
     = Returned args ->
     negb (a_no_caching args) = false /\
     files (snd (get_points geo_to_h3 h3_to_geo_boundary file read_file to_file
                            remote (a_url args) (a_product args) (a_day args)
                            (negb (a_no_caching args)) w))
     = files w).
Proof.
  intros Hnc. split.
  - rewrite main_run, parse_command_line_run.
    destruct (fromisoformat day) as [[[y m] d]|e]; [|simpl; auto].
    cbv zeta.
    cbn [a_url a_product a_day a_no_caching a_pixels_x a_pixels_y a_dpi].
    rewrite (proj2 (parse_args_no_caching opts product day) Hnc).
    cbn [negb].
    pose proof (get_points_without_cache_files geo_to_h3 h3_to_geo_boundary file
                  read_file to_file remote
                  (ns_url (parse_args opts product day)) product (Date y m d) w)
      as [_ Hget].
    destruct (get_points _ _ _ _ _ _ _ _ _ _ w) as [[df|e] w1]; [|exact Hget].
    destruct (py_truediv _ _); [|exact Hget].
    destruct (py_truediv _ _); exact Hget.
  - intros args Hargs. rewrite parse_command_line_run in Hargs.
    destruct (fromisoformat day) as [[[y m] d]|e]; [|discriminate].
    injection Hargs as <-. cbn [a_url a_product a_day a_no_caching].
    rewrite (proj2 (parse_args_no_caching opts product day) Hnc).
    split; [reflexivity|]. cbn [negb].
    apply get_points_without_cache_files.
Qed.

(** X18.  A day that [fromisoformat] refuses stops [main] with that
    exception before anything is read, downloaded or written. *)
Theorem main_bad_day opts product day e (w : world file) :
  fromisoformat day = Raised e ->
  main geo_to_h3 h3_to_geo_boundary file read_file to_file remote
       fromisoformat capitalize opts product day w = (Raised e, w).
Proof.
  intros Hday. rewrite main_run, parse_command_line_run, Hday. reflexivity.
Qed.

(** X19.  When the cache file of the product and the day exists and can be
    read, a run of [main] without [--no-caching] and without a size option
    plots the rows of that file: it tests and reads the file and makes no
    request, whatever [--url] is, and writes nothing before it calls
    [plot]. *)
Theorem main_plots_cached opts product day y m d f df (w : world file) :
  ~ OptNoCaching ∈ opts ->
  existsb is_size_option opts = false ->
  fromisoformat day = Returned (y, m, d) ->
  files w !! cache_filename product (Date y m d) = Some f ->
  read_file f = Returned df ->
  exists pc,
    main geo_to_h3 h3_to_geo_boundary file read_file to_file remote
         fromisoformat capitalize opts product day w
    = (Returned pc,
       World (files w)
             (calls w ++ [PathExists (cache_filename product (Date y m d));
                          ReadCache (cache_filename product (Date y m d))])) /\
    pc_data pc = df.
Proof.
  intros Hnc Hsize Hday Hf Hread.
  rewrite main_run, parse_command_line_run, Hday.
  cbv zeta. cbn [a_url a_product a_day a_no_caching a_pixels_x a_pixels_y a_dpi].
  destruct (ns_no_caching (parse_args opts product day)) eqn:Hflag.
  { now apply parse_args_no_caching in Hflag. }
  cbn [negb].
  rewrite (get_points_cached_run geo_to_h3 h3_to_geo_boundary file read_file
             to_file remote).
  cbv zeta. rewrite Hf, Hread.
  pose proof (parse_args_sizes opts product day) as Hs. cbv zeta in Hs.
  rewrite Hsize in Hs. destruct Hs as (_ & _ & _ & -> & -> & ->).
  simpl. eexists. split; reflexivity.
Qed.

End MainMore.

(** ** Runs on the toy grid

    Each of the properties above that has a premise, at an input that
    meets it. *)

Lemma retained_iff_vertices_near_witness :
  (q 5 - q (-5) <= q 180)%Qc /\ (q 10 - q 0 <= q 180)%Qc.
Proof.
  assert (Hin : "north" ∈ cell_keys toy_prepared)
    by (apply (elem_of_lookup_Some _ 0%nat); vm_compute; reflexivity).
  apply (proj1 (retained_iff_vertices_near _ _ _ _ _ "north" _
                  toy_prepare_eq north_in_toy_frame eq_refl) Hin
               (q 10) (q 5) (q 0) (q (-5))).
  - apply (elem_of_lookup_Some _ 2%nat). reflexivity.
  - apply (elem_of_lookup_Some _ 0%nat). reflexivity.
Defined.

Lemma latitude_never_masks_witness :
  (q 5 - q (-5) <= q 180)%Qc /\ ~ "edge" ∈ cell_keys toy_prepared.
Proof.
  assert (forall k poly, toy_boundary k = Returned poly ->
          forall lat lon, (lat, lon) ∈ poly -> (q (-90) <= lat <= q 90)%Qc) as Hlat.
  { intros k poly Hk lat lon Hv. unfold toy_boundary in Hk.
    repeat (destruct (String.eqb k _);
            [injection Hk as <-;
             repeat (apply elem_of_cons in Hv as [[= -> ->]|Hv]);
             try (inversion Hv);
             split; apply (bool_decide_unpack _); vm_compute; exact I|]).
    discriminate. }
  split.
  - assert (Hin : "north" ∈ cell_keys toy_prepared)
      by (apply (elem_of_lookup_Some _ 0%nat); vm_compute; reflexivity).
    apply (proj1 (latitude_never_masks _ _ _ _ _ "north" _
                    toy_prepare_eq north_in_toy_frame eq_refl
                    (Hlat "north" _ eq_refl)) Hin
                 (q 10) (q 5) (q 0) (q (-5))).
    + apply (elem_of_lookup_Some _ 2%nat). reflexivity.
    + apply (elem_of_lookup_Some _ 0%nat). reflexivity.
  - intros Hin.
    pose proof (proj1 (latitude_never_masks _ _ _ _ _ "edge" _
                         toy_prepare_eq edge_in_toy_frame eq_refl
                         (Hlat "edge" _ eq_refl)) Hin
                      (q 5) (q 175) (q 5) (q (-175))) as Hnear.
    assert (~ (q 175 - q (-175) <= q 180)%Qc) as Hfar
      by (apply (bool_decide_unpack _); vm_compute; exact I).
    apply Hfar, Hnear.
    + apply (elem_of_lookup_Some _ 1%nat). reflexivity.
    + apply (elem_of_lookup_Some _ 2%nat). reflexivity.
Defined.

Lemma merge_counts_every_feature_witness :
  sum_list
    (fmap (fun km => length (cell_values toy_geo_to_h3 (fst km) (features toy_frame)))
          (merge_points ["north"; "edge"; "north"; "south"] (features toy_frame)))
  = 4%nat.
Proof.
  exact (proj2 (merge_counts_every_feature _ _ _ _ _ _ toy_prepare_eq eq_refl)).
Defined.

Lemma prepare_row_count_witness :
  (length toy_prepared <= 4)%nat /\ (toy_prepared = [] <-> features toy_frame = []).
Proof. exact (prepare_row_count _ _ _ _ _ toy_prepare_eq). Defined.

Lemma prepare_rows_ordered_witness :
  StronglySorted key_lt (cell_keys toy_prepared).
Proof. exact (prepare_rows_ordered _ _ _ _ _ toy_prepare_eq). Defined.

Lemma prepare_raises_first_failure_witness :
  prepare strict_geo_to_h3 partial_boundary beyond_frame
  = (Raised "ValueError", beyond_frame).
Proof.
  apply (prepare_raises_first_failure strict_geo_to_h3 partial_boundary beyond_frame
           [Feature (q 1) (q 2) 10] (Feature (q 0) (q 91) 1)
           [Feature (q 0) (q (-95)) 1]).
  - reflexivity.
  - constructor; [vm_compute; exact I | constructor].
  - vm_compute. reflexivity.
Defined.

Lemma prepare_raises_least_boundary_witness :
  exists k e,
    (exists p, p ∈ features toy_frame /\ in_cell toy_geo_to_h3 k p) /\
    partial_boundary k = Raised e /\
    (forall k', (exists p, p ∈ features toy_frame /\ in_cell toy_geo_to_h3 k' p) ->
                key_lt k' k -> is_returned (partial_boundary k')) /\
    prepare toy_geo_to_h3 partial_boundary toy_frame
    = (Raised e,
       Frame (features toy_frame) true (Some ["north"; "edge"; "north"; "south"])).
Proof.
  apply (prepare_raises_least_boundary toy_geo_to_h3 partial_boundary toy_frame
           _ "north").
  - vm_compute. reflexivity.
  - reflexivity.
  - exact north_in_toy_frame.
  - vm_compute. intros [].
Defined.

Lemma cache_save_then_load_witness :
  fst (cache_load (list row) Returned "ozone" (Date 2020 2 28)
         (snd (cache_save (list row) Returned [null_row] "ozone" (Date 2020 2 28)
                          (World ∅ []))))
  = Returned (Some [null_row]).
Proof.
  exact (proj1 (proj2 (cache_save_then_load (list row) Returned Returned [null_row]
                         "ozone" (Date 2020 2 28) (World ∅ []) [null_row] eq_refl))
               eq_refl).
Defined.

Lemma toy_get_points_first_run url :
  toy_get_points url "ozone" (Date 2020 2 28) true (World ∅ [])
  = (Returned toy_prepared,
     World (<[ "cache-ozone-2020-02-28" := toy_prepared ]> ∅)
           [PathExists "cache-ozone-2020-02-28";
            HttpGet (url +:+ "/api/v2/ozone/geo.json?begin=2020-02-28&end=2020-02-29");
            Prepare toy_frame; ToFile "cache-ozone-2020-02-28"]).
Proof.
  unfold toy_get_points. rewrite get_points_cached_run. cbv zeta.
  cbn [files calls].
  assert ((∅ : gmap string (list row))
          !! cache_filename "ozone" (Date 2020 2 28) = None) as ->
    by (vm_compute; reflexivity).
  change (add_one_day (Date 2020 2 28)) with (Returned (Date 2020 2 29)).
  unfold toy_remote at 1. rewrite toy_prepare_eq. reflexivity.
Qed.

Lemma get_points_again_reads_cache_witness :
  toy_get_points "http://localhost" "ozone" (Date 2020 2 28) true
    (World (<[ "cache-ozone-2020-02-28" := toy_prepared ]> ∅)
       [PathExists "cache-ozone-2020-02-28";
        HttpGet "u/api/v2/ozone/geo.json?begin=2020-02-28&end=2020-02-29";
        Prepare toy_frame; ToFile "cache-ozone-2020-02-28"])
  = (Returned toy_prepared,
     World (<[ "cache-ozone-2020-02-28" := toy_prepared ]> ∅)
       [PathExists "cache-ozone-2020-02-28";
        HttpGet "u/api/v2/ozone/geo.json?begin=2020-02-28&end=2020-02-29";
        Prepare toy_frame; ToFile "cache-ozone-2020-02-28";
        PathExists "cache-ozone-2020-02-28"; ReadCache "cache-ozone-2020-02-28"]).
Proof.
  destruct (get_points_again_reads_cache toy_geo_to_h3 toy_boundary (list row)
              Returned Returned toy_remote "u" "http://localhost" "ozone"
              (Date 2020 2 28) (World ∅ []) _ _ (toy_get_points_first_run "u"))
    as (f & Hf & _ & Hrun).
  change (cache_filename "ozone" (Date 2020 2 28))
    with "cache-ozone-2020-02-28" in Hf, Hrun.
  cbn [files] in Hf. rewrite lookup_insert_eq in Hf. injection Hf as <-.
  exact Hrun.
Defined.

Lemma get_points_unreadable_cache_witness :
  get_points toy_geo_to_h3 toy_boundary unit (fun _ => Raised "DriverError")
             (fun _ => Returned tt) toy_remote "u" "ozone" (Date 2020 2 28) true
             (World {[ "cache-ozone-2020-02-28" := tt ]} [])
  = (Raised "DriverError",
     World {[ "cache-ozone-2020-02-28" := tt ]}
           [PathExists "cache-ozone-2020-02-28"; ReadCache "cache-ozone-2020-02-28"]).
Proof.
  assert (({[ "cache-ozone-2020-02-28" := tt ]} : gmap string unit)
          !! cache_filename "ozone" (Date 2020 2 28) = Some tt) as Hhit
    by (vm_compute; reflexivity).
  exact (get_points_unreadable_cache toy_geo_to_h3 toy_boundary unit
           (fun _ => Raised "DriverError") (fun _ => Returned tt) toy_remote
           "u" "ozone" (Date 2020 2 28)
           (World {[ "cache-ozone-2020-02-28" := tt ]} []) tt "DriverError"
           Hhit eq_refl).
Defined.

Lemma get_points_without_values_witness :
  get_points toy_geo_to_h3 toy_boundary (list row) Returned Returned
             (fun _ => Returned (Frame [] false None))
             "u" "ozone" (Date 2020 2 28) true (World ∅ [])
  = (Raised "KeyError",
     World ∅
           [PathExists "cache-ozone-2020-02-28";
            HttpGet "u/api/v2/ozone/geo.json?begin=2020-02-28&end=2020-02-29";
            Prepare (Frame [] false None)]).
Proof.
  exact (get_points_without_values toy_geo_to_h3 toy_boundary (list row)
           Returned Returned (fun _ => Returned (Frame [] false None))
           "u" "ozone" (Date 2020 2 28) true (Date 2020 2 29)
           (Frame [] false None) [] (World ∅ [])
           eq_refl eq_refl eq_refl eq_refl (fun _ => eq_refl)).
Defined.

Lemma cache_filename_inj_witness :
  "ozone-2020" = "ozone-2020" /\ Date 2020 2 28 = Date 2020 2 28.
Proof.
  apply cache_filename_inj.
  - unfold valid_day, valid_date; simpl; lia.
  - unfold valid_day, valid_date; simpl; lia.
  - reflexivity.
Defined.

Lemma toy_parse_command_line opts :
  parse_command_line toy_fromisoformat toy_capitalize opts "ozone" "2020-02-28"
  = Returned (toy_arguments opts).
Proof. rewrite parse_command_line_run. reflexivity. Qed.

Lemma main_size_option_raises_witness :
  toy_main [OptDpi "96"] "ozone" "2020-02-28" (World ∅ [])
  = (Raised "TypeError",
     World (<[ "cache-ozone-2020-02-28" := toy_prepared ]> ∅)
           [PathExists "cache-ozone-2020-02-28";
            HttpGet ("https://api.v2.emissions-api.org"
                     +:+ "/api/v2/ozone/geo.json?begin=2020-02-28&end=2020-02-29");
            Prepare toy_frame; ToFile "cache-ozone-2020-02-28"]).
Proof.
  exact (proj2 (main_size_option_raises toy_geo_to_h3 toy_boundary (list row)
                  Returned Returned toy_remote toy_fromisoformat toy_capitalize
                  [OptDpi "96"] "ozone" "2020-02-28" (World ∅ []) eq_refl)
               _ _ _ (toy_parse_command_line [OptDpi "96"])
               (toy_get_points_first_run "https://api.v2.emissions-api.org")).
Defined.

Lemma toy_main_default_run :
  toy_main [] "ozone" "2020-02-28" (World ∅ [])
  = (Returned
       (PlotCall toy_prepared "ozone-2020-02-28.png"
                 (Qc_of_Z 8000 / Qc_of_Z 96, Qc_of_Z 4000 / Qc_of_Z 96)%Qc
                 (PyInt 96) false "gist_rainbow" "Ozone 2020-02-28" "Ozone"
                 (PyInt 50) None None),
     World (<[ "cache-ozone-2020-02-28" := toy_prepared ]> ∅)
           [PathExists "cache-ozone-2020-02-28";
            HttpGet ("https://api.v2.emissions-api.org"
                     +:+ "/api/v2/ozone/geo.json?begin=2020-02-28&end=2020-02-29");
            Prepare toy_frame; ToFile "cache-ozone-2020-02-28"]).
Proof.
  unfold toy_main. rewrite main_run, toy_parse_command_line.
  cbv [toy_arguments parse_args fold_left defaults].
  cbn [a_url a_product a_day a_no_caching ns_url ns_no_caching negb].
  pose proof (toy_get_points_first_run "https://api.v2.emissions-api.org") as Hget.
  unfold toy_get_points in Hget. rewrite Hget. reflexivity.
Qed.

Lemma main_plot_size_witness :
  existsb is_size_option [] = false /\
  toy_get_points "https://api.v2.emissions-api.org" "ozone" (Date 2020 2 28) true
                 (World ∅ [])
  = (Returned toy_prepared,
     World (<[ "cache-ozone-2020-02-28" := toy_prepared ]> ∅)
           [PathExists "cache-ozone-2020-02-28";
            HttpGet ("https://api.v2.emissions-api.org"
                     +:+ "/api/v2/ozone/geo.json?begin=2020-02-28&end=2020-02-29");
            Prepare toy_frame; ToFile "cache-ozone-2020-02-28"]).
Proof.
  destruct (main_plot_size toy_geo_to_h3 toy_boundary (list row) Returned Returned
              toy_remote toy_fromisoformat toy_capitalize [] "ozone" "2020-02-28"
              _ _ _ toy_main_default_run)
    as (_ & _ & Hnone & args & Hargs & Hget).
  split; [exact Hnone|].
  rewrite toy_parse_command_line in Hargs. injection Hargs as <-.
  exact Hget.
Defined.

Lemma parse_command_line_defaults_witness :
  a_title (toy_arguments [OptTitle ""; OptOutput "map.png"]) = "Ozone 2020-02-28" /\
  a_legend_title (toy_arguments [OptTitle ""; OptOutput "map.png"]) = "Ozone".
Proof.
  destruct (parse_command_line_defaults toy_fromisoformat toy_capitalize
              [OptTitle ""; OptOutput "map.png"] "ozone" "2020-02-28"
              _ (toy_parse_command_line [OptTitle ""; OptOutput "map.png"]))
    as (_ & _ & _ & Htitle & Hlegend).
  split.
  - apply Htitle. intros s Hs.
    apply elem_of_cons in Hs as [[= ->]|Hs]; [reflexivity|].
    apply list_elem_of_singleton in Hs. discriminate.
  - apply Hlegend. intros s Hs.
    apply elem_of_cons in Hs as [Hs|Hs]; [discriminate|].
    apply list_elem_of_singleton in Hs. discriminate.
Defined.

Lemma main_no_caching_witness :
  Forall (fun c => is_cache_call c = false)
         (calls (snd (toy_main [OptNoCaching] "ozone" "2020-02-28" (World ∅ [])))).
Proof.
  assert (OptNoCaching ∈ [OptNoCaching]) as Hin
    by (apply list_elem_of_singleton; reflexivity).
  apply Forall_forall. intros c Hc.
  destruct (proj1 (main_no_caching toy_geo_to_h3 toy_boundary (list row) Returned
                     Returned toy_remote toy_fromisoformat toy_capitalize
                     [OptNoCaching] "ozone" "2020-02-28" (World ∅ []) Hin) c Hc)
    as [Hold|Hnew]; [inversion Hold | exact Hnew].
Defined.

Lemma main_bad_day_witness :
  toy_main [] "ozone" "2020-02-30" (World ∅ []) = (Raised "ValueError", World ∅ []).
Proof.
  exact (main_bad_day toy_geo_to_h3 toy_boundary (list row) Returned Returned
           toy_remote toy_fromisoformat toy_capitalize [] "ozone" "2020-02-30"
           "ValueError" (World ∅ []) eq_refl).
Defined.

Lemma main_plots_cached_witness :
  exists pc,
    toy_main [OptUrl "http://localhost"] "ozone" "2020-02-28"
             (World {[ "cache-ozone-2020-02-28" := [null_row] ]} [])
    = (Returned pc,
       World {[ "cache-ozone-2020-02-28" := [null_row] ]}
             [PathExists "cache-ozone-2020-02-28";
              ReadCache "cache-ozone-2020-02-28"]) /\
    pc_data pc = [null_row].
Proof.
  assert (~ OptNoCaching ∈ [OptUrl "http://localhost"]) as Hnc
    by (intros H; apply list_elem_of_singleton in H; discriminate).
  assert (({[ "cache-ozone-2020-02-28" := [null_row] ]} : gmap string (list row))
          !! cache_filename "ozone" (Date 2020 2 28) = Some [null_row]) as Hhit
    by (vm_compute; reflexivity).
  exact (main_plots_cached toy_geo_to_h3 toy_boundary (list row) Returned Returned
           toy_remote toy_fromisoformat toy_capitalize
           [OptUrl "http://localhost"] "ozone" "2020-02-28" 2020%Z 2%Z 28%Z
           [null_row] [null_row]
           (World {[ "cache-ozone-2020-02-28" := [null_row] ]} [])
           Hnc eq_refl eq_refl Hhit eq_refl).
Defined.
